(** * example-counter: the HTTP job server of [counter-wip/src/server.ts]

    A shallow embedding of the TypeScript server: the ASCII-art renderer
    [numberToAscii], the [/start_job] and [/status] handlers, the job
    lifecycle that runs after the response (payment polling, then the
    increment), and the SIGINT handler. The earlier server file (the one
    with the [/inc] route) has the same [numberToAscii], table and
    SIGINT handler.

    Conventions of the embedding.
    - A JavaScript string is a Rocq [string] holding its UTF-8 bytes;
      [utf16_length] is the JavaScript [length] (code units).
    - The [jobs] Map is a [gmap string job].
    - An [async] function is cut at its [await]s: the code between two
      awaits is one total function, and what the awaited promise settles
      to is an [event] supplied by the environment, together with the
      [Date.now()] readings the continuation takes.
    - [logger] calls have no effect on the registry or on the response
      and are left out, and so are [logLedgerState], [/availability]
      and [/input_schema]. The older routes [/start_job_old] and [/inc]
      are modelled after the claims' code; the startup steps of
      [runServer] before the routes are registered are not. *)

From Stdlib Require Import ZArith String Ascii List DecimalString DecimalPos DecimalZ Lia.
From stdpp Require Import gmap strings list.

Open Scope string_scope.

(** ** JavaScript values *)

(** The values that flow through the handlers: parsed JSON bodies, query
    parameters, what the payment service and [api.increment] answer.
    Numbers are only carried, never computed on, in these positions; an
    object is the list of its own properties, each key once. *)
#[local] Unset Elimination Schemes.
Inductive jsval : Type :=
  | VUndefined
  | VNull
  | VBool (b : bool)
  | VNum (z : Z)
  | VStr (s : string)
  | VArr (items : list jsval)
  | VObj (props : list (string * jsval)).
#[local] Set Elimination Schemes.

(** What a [throw] or a rejected promise carries, as far as
    [err instanceof Error ? err.message : 'Unknown error'] can tell. *)
Inductive thrown : Type :=
  | ErrError (message : string)
  | ErrOther.

(** A computation that may throw. *)
Inductive completion (A : Type) : Type :=
  | Normal (a : A)
  | Throw (e : thrown).
Arguments Normal {A} a.
Arguments Throw {A} e.

Definition bind {A B} (c : completion A) (k : A -> completion B) : completion B :=
  match c with
  | Normal a => k a
  | Throw e => Throw e
  end.

Notation "'do' x <- c ; k" := (bind c (fun x => k))
  (at level 10, x name, c at level 100, k at level 200).

Fixpoint assoc (k : string) (props : list (string * jsval)) : jsval :=
  match props with
  | [] => VUndefined
  | (k', v) :: rest => if String.eqb k' k then v else assoc k rest
  end.

(** The message V8 gives the TypeError of a property read on [null] or
    [undefined]. *)
Definition nullish_read_message (base : string) (k : string) : string :=
  "Cannot read properties of " +:+ base +:+ " (reading '" +:+ k +:+ "')".

(** [v.k]: throws on [null] and [undefined]; the property names read in
    this program ([input_data], [key], [value], [data], [status], [txId])
    are own properties of objects only. *)
Definition get_prop (v : jsval) (k : string) : completion jsval :=
  match v with
  | VUndefined => Throw (ErrError (nullish_read_message "undefined" k))
  | VNull => Throw (ErrError (nullish_read_message "null" k))
  | VObj props => Normal (assoc k props)
  | _ => Normal VUndefined
  end.

(** [v?.k] *)
Definition get_prop_opt (v : jsval) (k : string) : jsval :=
  match v with
  | VObj props => assoc k props
  | _ => VUndefined
  end.

(** [v === 'literal'] *)
Definition strict_eq_str (v : jsval) (s : string) : bool :=
  match v with
  | VStr t => String.eqb t s
  | _ => false
  end.

Definition Array_isArray (v : jsval) : bool :=
  match v with
  | VArr _ => true
  | _ => false
  end.

(** [arr.find(pred)]: the first element the predicate accepts, or
    [undefined]; a predicate that throws ends the search. *)
Fixpoint Array_find (pred : jsval -> completion bool) (items : list jsval)
  : completion jsval :=
  match items with
  | [] => Normal VUndefined
  | x :: rest =>
      do b <- pred x;
      if b then Normal x else Array_find pred rest
  end.

(** [n.toString()] for an integer [n] of magnitude below 2^53: there a
    JavaScript number holds [n] exactly and [toString] prints its plain
    decimal digits. Larger numbers are rounded and, from 10^21 on,
    printed with an exponent; they are outside this definition. *)
Definition Number_toString (n : Z) : string :=
  NilZero.string_of_int (Z.to_int n).

(** Reading a decimal string back. *)
Definition parse_decimal (s : string) : option Z :=
  match NilZero.int_of_string s with
  | Some d => Some (Z.of_int d)
  | None => None
  end.

(** [JSON.stringify] drops the properties whose value is [undefined] and
    writes [null] for an [undefined] array element; [res.json] sends the
    result. *)
Fixpoint JSON_stringify_value (v : jsval) : jsval :=
  match v with
  | VArr items =>
      VArr (List.map (fun x => match x with
                               | VUndefined => VNull
                               | _ => JSON_stringify_value x
                               end) items)
  | VObj props =>
      VObj ((fix go (ps : list (string * jsval)) : list (string * jsval) :=
               match ps with
               | [] => []
               | (k, VUndefined) :: rest => go rest
               | (k, x) :: rest => (k, JSON_stringify_value x) :: go rest
               end) props)
  | _ => v
  end.

Definition has_field (k : string) (body : jsval) : bool :=
  match body with
  | VObj props => existsb (fun kv => String.eqb (fst kv) k) props
  | _ => false
  end.

(** ** Strings as JavaScript sees them *)

Definition LF : string := String "010"%char "".

(** [s.length]: UTF-16 code units of the UTF-8 text [s]. A continuation
    byte (10xxxxxx) adds nothing, a four-byte lead adds two. *)
Fixpoint utf16_length (s : string) : nat :=
  match s with
  | EmptyString => 0
  | String c rest =>
      let b := nat_of_ascii c in
      (if (b <? 128)%nat then 1
       else if (b <? 192)%nat then 0
       else if (b <? 240)%nat then 1
       else 2) + utf16_length rest
  end.

(** [s.split('')] on ASCII text. *)
Fixpoint split_chars (s : string) : list string :=
  match s with
  | EmptyString => []
  | String c rest => String c "" :: split_chars rest
  end.

(** [parts.join(sep)] *)
Fixpoint join (sep : string) (parts : list string) : string :=
  match parts with
  | [] => ""
  | [p] => p
  | p :: rest => p +:+ sep +:+ join sep rest
  end.

(** [arr.forEach((x, index) => ...)] with the state the callback
    mutates threaded through. *)
Fixpoint forEach_from {A St : Type} (f : A -> nat -> St -> St)
    (l : list A) (index : nat) (st : St) : St :=
  match l with
  | [] => st
  | x :: rest => forEach_from f rest (S index) (f x index st)
  end.

Definition forEach {A St : Type} (f : A -> nat -> St -> St) (l : list A) (st : St) : St :=
  forEach_from f l 0 st.

(** [lines[i] += x]. Past the end JavaScript concatenates onto
    [undefined] and extends the array; the inner [forEach] visits
    0, 1, 2, ... in order, so [i] is then the length. *)
Fixpoint add_at (i : nat) (x : string) (lines : list string) : list string :=
  match lines, i with
  | [], _ => ["undefined" +:+ x]
  | l :: rest, O => (l +:+ x) :: rest
  | l :: rest, S i' => l :: add_at i' x rest
  end.

(** ** The ASCII art *)

Definition ASCII_NUMBERS_table : list (string * list string) :=
  [ ("0", [
    "  ████  ";
    " ██  ██ ";
    "██    ██";
    "██    ██";
    " ██  ██ ";
    "  ████  "
  ]);
  ("1", [
    "   ██   ";
    "  ███   ";
    "   ██   ";
    "   ██   ";
    "   ██   ";
    "  ████  "
  ]);
  ("2", [
    " ██████ ";
    "██    ██";
    "     ██ ";
    "   ██   ";
    " ██     ";
    "████████"
  ]);
  ("3", [
    " ██████ ";
    "██    ██";
    "    ███ ";
    "    ███ ";
    "██    ██";
    " ██████ "
  ]);
  ("4", [
    "██    ██";
    "██    ██";
    "████████";
    "     ██ ";
    "     ██ ";
    "     ██ "
  ]);
  ("5", [
    "████████";
    "██      ";
    "███████ ";
    "      ██";
    "██    ██";
    " ██████ "
  ]);
  ("6", [
    " ██████ ";
    "██      ";
    "███████ ";
    "██    ██";
    "██    ██";
    " ██████ "
  ]);
  ("7", [
    "████████";
    "     ██ ";
    "    ██  ";
    "   ██   ";
    "  ██    ";
    " ██     "
  ]);
  ("8", [
    " ██████ ";
    "██    ██";
    " ██████ ";
    "██    ██";
    "██    ██";
    " ██████ "
  ]);
  ("9", [
    " ██████ ";
    "██    ██";
    "██    ██";
    " ███████";
    "      ██";
    " ██████ "
  ]) ].

(** [ASCII_NUMBERS[digit]] for a one-character [digit]. *)
Fixpoint lookup_table (digit : string) (t : list (string * list string))
  : option (list string) :=
  match t with
  | [] => None
  | (k, rows) :: rest => if String.eqb k digit then Some rows else lookup_table digit rest
  end.

Definition ASCII_NUMBERS (digit : string) : option (list string) :=
  lookup_table digit ASCII_NUMBERS_table.

(** The body of [numberToAscii] after [num.toString().split('')]. *)
Definition numberToAscii_digits (digits : list string) : string :=
  let lines := replicate 6 "" in
  let lines :=
    forEach (fun digit index lines =>
      match ASCII_NUMBERS digit with
      | Some asciiDigit =>
          forEach (fun line lineIndex lines =>
            add_at lineIndex
              (line +:+ (if (Z.of_nat index <? Z.of_nat (length digits) - 1)%Z
                         then "  " else ""))
              lines) asciiDigit lines
      | None => lines
      end) digits lines in
  join LF lines.

Section NumberToAscii.
(** The [number] type and its [toString] are the language's; the
    renderer only sees the characters [toString] returns. *)
Variable number : Type.
Variable toString : number -> string.

Definition numberToAscii (num : number) : string :=
  numberToAscii_digits (split_chars (toString num)).
End NumberToAscii.

(** The renderer on integers, as [logLedgerState] calls it on the
    counter value; exact for magnitudes below 2^53, as [Number_toString]
    is. *)
Definition numberToAscii_int : Z -> string := numberToAscii Z Number_toString.

(** The claim's words: line [r] is, digit by digit, row [r] of the digit
    followed by two spaces unless the digit is the last character; a
    character that is not in the table adds nothing. *)
Definition art_piece (len r : nat) (index : nat) (digit : string) : string :=
  match ASCII_NUMBERS digit with
  | Some rows =>
      nth r rows "" +:+ (if (index <? len - 1)%nat then "  " else "")
  | None => ""
  end.

Definition art_line (digits : list string) (r : nat) : string :=
  foldr String.append "" (imap (art_piece (length digits) r) digits).

Definition art_spec (digits : list string) : string :=
  join LF (List.map (art_line digits) (seq 0 6)).

Fixpoint count_char (c : ascii) (s : string) : nat :=
  match s with
  | EmptyString => 0
  | String d rest => (if Ascii.eqb c d then 1 else 0) + count_char c rest
  end.

(** ** The job registry and the HTTP responses *)

(** A record of the [jobs] Map. [{ status: 'running' }] has no [result]
    property: reading [job.result] then gives [undefined]. *)
Record job : Type := { status : string; result : jsval }.

Record response : Type := { code : Z; body : jsval }.

(** [res.status(c).json(obj)] *)
Definition res_status_json (c : Z) (obj : jsval) : response :=
  {| code := c; body := JSON_stringify_value obj |}.

(** [res.json(obj)] *)
Definition res_json (obj : jsval) : response := res_status_json 200 obj.

(** What the caller of an [async] handler sees of it: the response it
    sent, or nothing when it threw before sending one. *)
Inductive reply : Type :=
  | Sent (r : response)
  | NoReply (e : thrown).

(** The states of the spec, and the strings the code stores for them. *)
Inductive Status : Type := AwaitingPayment | Running | Completed | Failed.

Definition status_string (st : Status) : string :=
  match st with
  | AwaitingPayment => "awaiting_payment"
  | Running => "running"
  | Completed => "completed"
  | Failed => "failed"
  end.

Definition status_of_string (s : string) : option Status :=
  if String.eqb s "awaiting_payment" then Some AwaitingPayment
  else if String.eqb s "running" then Some Running
  else if String.eqb s "completed" then Some Completed
  else if String.eqb s "failed" then Some Failed
  else None.

(** The arrows of the state machine. *)
Definition transition (a b : Status) : bool :=
  match a, b with
  | AwaitingPayment, Running => true
  | AwaitingPayment, Failed => true
  | Running, Completed => true
  | Running, Failed => true
  | _, _ => false
  end.

Definition terminal (s : string) : bool :=
  String.eqb s "completed" || String.eqb s "failed".

(** ** The lifecycle that runs after the response *)

Definition timeout : Z := 120000.

(** Where the rest of the [/start_job] handler is suspended. *)
Inductive phase : Type :=
  | Sleeping (start : Z)     (* await new Promise(r => setTimeout(r, 5000)) *)
  | Querying (start : Z)     (* await axios.get(.../payment) *)
  | Incrementing             (* await api.increment(counterContract) *)
  | Finished.

Record task : Type := { t_jobId : string; t_paymentId : string; t_phase : phase }.

(** What an awaited promise settles to. [now] is the [Date.now()] the
    loop test reads next (it is read only while [confirmed] is false). *)
Inductive event : Type :=
  | TimerFired
  | QueryResolved (check_data : jsval) (now : Z)
  | QueryRejected (err : thrown)
  | IncrementResolved (result : jsval)
  | IncrementRejected (err : thrown).

(** The server: the closure variable [inputHash], the [jobs] Map, the
    suspended lifecycles and the number of [uuidv4()] calls made.
    [history] records every [jobs.set], oldest first. *)
Record server : Type := {
  inputHash : string;
  jobs : gmap string job;
  history : list (string * job);
  uuid_calls : nat;
  tasks : list task
}.

(** [jobs.set(jobId, record)] *)
Definition jobs_set (jobId : string) (j : job) (s : server) : server :=
  {| inputHash := inputHash s;
     jobs := <[jobId := j]> (jobs s);
     history := history s ++ [(jobId, j)];
     uuid_calls := uuid_calls s;
     tasks := tasks s |}.

Definition blockchainIdentifier : string := "Cardano".

(** [err instanceof Error ? err.message : 'Unknown error'] *)
Definition catch_message (e : thrown) : jsval :=
  match e with
  | ErrError m => VStr m
  | ErrOther => VStr "Unknown error"
  end.

(** The [catch] block of the handler. *)
Definition on_catch (jobId : string) (e : thrown) (s : server) : phase * server :=
  (Finished, jobs_set jobId {| status := "failed"; result := catch_message e |} s).

(** [check.data?.data?.status === 'Success'] *)
Definition confirms (check_data : jsval) : bool :=
  strict_eq_str (get_prop_opt (get_prop_opt check_data "data") "status") "Success".

(** The test of [while (!confirmed && Date.now() - start < timeout)] and
    what follows it up to the next [await]. *)
Definition loop_test (confirmed : bool) (start now : Z) (jobId : string)
    (s : server) : phase * server :=
  if negb confirmed && (now - start <? timeout)%Z then
    (Sleeping start, s)
  else if negb confirmed then
    (Finished, jobs_set jobId {| status := "failed"; result := VStr "Payment timeout" |} s)
  else
    (Incrementing, jobs_set jobId {| status := "running"; result := VUndefined |} s).

(** One settled promise of a lifecycle; [None] when the lifecycle is not
    waiting for that event. *)
Definition settle (jobId : string) (p : phase) (ev : event) (s : server)
  : option (phase * server) :=
  match p, ev with
  | Sleeping start, TimerFired => Some (Querying start, s)
  | Querying start, QueryResolved check_data now =>
      Some (loop_test (confirms check_data) start now jobId s)
  | Querying start, QueryRejected err => Some (on_catch jobId err s)
  | Incrementing, IncrementResolved result =>
      match get_prop result "txId" with
      | Normal txId =>
          Some (Finished, jobs_set jobId {| status := "completed"; result := txId |} s)
      | Throw e => Some (on_catch jobId e s)
      end
  | Incrementing, IncrementRejected err => Some (on_catch jobId err s)
  | _, _ => None
  end.

Fixpoint settle_all (jobId : string) (p : phase) (evs : list event) (s : server)
  : option (phase * server) :=
  match evs with
  | [] => Some (p, s)
  | ev :: rest =>
      match settle jobId p ev s with
      | Some (p', s') => settle_all jobId p' rest s'
      | None => None
      end
  end.

(** The events of polling rounds: the timer fires, then the query is
    answered with the given data while the clock shows the given time. *)
Definition poll_rounds (answers : list (jsval * Z)) : list event :=
  flat_map (fun a => [TimerFired; QueryResolved (fst a) (snd a)]) answers.

(** ** The handlers *)

(** The two guards of [/start_job]: [Some r] is the 400 sent, [None]
    lets the request through. *)
Definition validate (req_body : jsval) : completion (option response) :=
  do inputData <- get_prop req_body "input_data";
  match inputData with
  | VArr entries =>
      do found <- Array_find
                    (fun entry => do k <- get_prop entry "key";
                                  Normal (strict_eq_str k "task")) entries;
      let task := get_prop_opt found "value" in
      if negb (strict_eq_str task "increment") then
        Normal (Some (res_status_json 400 (VObj [("error", VStr "Unsupported task")])))
      else Normal None
  | _ =>
      Normal (Some (res_status_json 400
                      (VObj [("error", VStr "input_data must be an array")])))
  end.

Section Server.
(** [uuidv4 n] is what the [n]-th call of [uuidv4()] in this process
    returns. *)
Variable uuidv4 : nat -> string.

(** [runServer] once the wallet and the contract are there: the
    module-level [jobs] Map is empty and [inputHash] is drawn. *)
Definition boot : server :=
  {| inputHash := uuidv4 0; jobs := ∅; history := []; uuid_calls := 1; tasks := [] |}.

(** [app.post('/start_job')] up to its first [await]. [t_now],
    [t_start] and [t_test] are the three [Date.now()] readings. *)
Definition start_job (req_body : jsval) (t_now t_start t_test : Z) (s : server)
  : reply * server :=
  match validate req_body with
  | Throw e => (NoReply e, s)
  | Normal (Some r) => (Sent r, s)
  | Normal None =>
      let jobId := uuidv4 (uuid_calls s) in
      let paymentId := uuidv4 (S (uuid_calls s)) in
      let now := (t_now / 1000)%Z in
      let unlockTime := (now + 600)%Z in
      let externalDisputeUnlockTime := (now + 1800)%Z in
      let submitResultTime := (now + 1200)%Z in
      let s := jobs_set jobId {| status := "awaiting_payment"; result := VNull |} s in
      let r := res_json (VObj [
                 ("job_id", VStr jobId);
                 ("payment_id", VStr paymentId);
                 ("inputHash", VStr (inputHash s));
                 ("blockchainIdentifier", VStr blockchainIdentifier);
                 ("unlockTime", VStr (Number_toString unlockTime));
                 ("externalDisputeUnlockTime",
                    VStr (Number_toString externalDisputeUnlockTime));
                 ("submitResultTime", VStr (Number_toString submitResultTime)) ]) in
      let '(p, s) := loop_test false t_start t_test jobId s in
      (Sent r,
       {| inputHash := inputHash s;
          jobs := jobs s;
          history := history s;
          uuid_calls := S (S (uuid_calls s));
          tasks := tasks s ++ [ {| t_jobId := jobId; t_paymentId := paymentId;
                                   t_phase := p |} ] |})
  end.

(** [app.get('/status')]; [job_id] is [req.query.job_id]. *)
Definition get_status (job_id : jsval) (s : server) : response :=
  match job_id with
  | VStr jobId =>
      if String.eqb jobId "" then
        res_status_json 404 (VObj [("error", VStr "Job not found")])
      else
        match jobs s !! jobId with
        | None => res_status_json 404 (VObj [("error", VStr "Job not found")])
        | Some job =>
            res_json (VObj [ ("job_id", VStr jobId);
                             ("status", VStr (status job));
                             ("result", result job) ])
        end
  | _ => res_status_json 404 (VObj [("error", VStr "Job not found")])
  end.

(** What reaches the process: a request, or the settling of the
    promise the [i]-th lifecycle awaits. *)
Inductive input : Type :=
  | PostStartJob (req_body : jsval) (t_now t_start t_test : Z)
  | GetStatus (job_id : jsval)
  | Settle (i : nat) (ev : event).

Inductive output : Type :=
  | OutStartJob (r : reply)
  | OutStatus (r : response)
  | OutNone.

Definition set_phase (i : nat) (p : phase) (s : server) : server :=
  {| inputHash := inputHash s;
     jobs := jobs s;
     history := history s;
     uuid_calls := uuid_calls s;
     tasks := alter (fun t => {| t_jobId := t_jobId t; t_paymentId := t_paymentId t;
                                 t_phase := p |}) i (tasks s) |}.

Definition step (s : server) (inp : input) : server * output :=
  match inp with
  | PostStartJob req_body t_now t_start t_test =>
      let '(r, s') := start_job req_body t_now t_start t_test s in
      (s', OutStartJob r)
  | GetStatus job_id => (s, OutStatus (get_status job_id s))
  | Settle i ev =>
      match tasks s !! i with
      | Some t =>
          match settle (t_jobId t) (t_phase t) ev s with
          | Some (p, s') => (set_phase i p s', OutNone)
          | None => (s, OutNone)
          end
      | None => (s, OutNone)
      end
  end.

Fixpoint run (s : server) (inputs : list input) : server * list output :=
  match inputs with
  | [] => (s, [])
  | inp :: rest =>
      let '(s', o) := step s inp in
      let '(s'', os) := run s' rest in
      (s'', o :: os)
  end.
End Server.

(** The statuses written for one job, oldest first. *)
Definition writes_of (jobId : string) (h : list (string * job)) : list string :=
  List.map (fun w => status (snd w)) (List.filter (fun w => String.eqb (fst w) jobId) h).

(** A list of statuses that follows the arrows from a given state. *)
Fixpoint follows (prev : Status) (l : list string) : bool :=
  match l with
  | [] => true
  | s :: rest =>
      match status_of_string s with
      | Some st => transition prev st && follows st rest
      | None => false
      end
  end.

(** A list of statuses that starts in [awaiting_payment] and follows the
    arrows. *)
Definition lifecycle (l : list string) : bool :=
  match l with
  | [] => true
  | s :: rest => String.eqb s "awaiting_payment" && follows AwaitingPayment rest
  end.

(** ** The SIGINT handler *)

Module Shutdown.
(** The process as the handler sees it: whether the [setInterval]
    timer is still armed, how often [wallet.close()] has been called,
    how many of these calls have not resolved yet, and the code the
    process exited with. *)
Record process : Type := {
  interval_armed : bool;
  wallet_close_calls : nat;
  closes_pending : nat;
  exit_code : option Z
}.

Inductive signal : Type :=
  | SIGINT                 (* the signal is delivered *)
  | WalletClosed.          (* a pending wallet.close() resolves *)

(** [runServer] after [process.on('SIGINT', ...)]. *)
Definition serving : process :=
  {| interval_armed := true; wallet_close_calls := 0; closes_pending := 0;
     exit_code := None |}.

(** [clearInterval(interval); await wallet.close(); process.exit(0)] *)
Definition handle (p : process) (ev : signal) : process :=
  match exit_code p with
  | Some _ => p
  | None =>
      match ev with
      | SIGINT =>
          {| interval_armed := false;
             wallet_close_calls := S (wallet_close_calls p);
             closes_pending := S (closes_pending p);
             exit_code := None |}
      | WalletClosed =>
          match closes_pending p with
          | O => p
          | S n =>
              {| interval_armed := interval_armed p;
                 wallet_close_calls := wallet_close_calls p;
                 closes_pending := n;
                 exit_code := Some 0%Z |}
          end
      end
  end.

Definition handle_all (p : process) (evs : list signal) : process :=
  fold_left handle evs p.
End Shutdown.

(** ** Sample inputs *)

Definition sample_uuid (n : nat) : string :=
  "00000000-0000-4000-8000-00000000000" +:+ Number_toString (Z.of_nat n).

Definition increment_request : jsval :=
  VObj [("input_data", VArr [VObj [("key", VStr "task"); ("value", VStr "increment")]])].

Definition payment_answer (st : string) : jsval :=
  VObj [("data", VObj [("status", VStr st)])].

(** ** Predicates and sample runs of the statements *)

(** A table row is eight characters wide and has no newline. *)
Definition row_ok (row : string) : bool :=
  (utf16_length row =? 8)%nat && (count_char "010"%char row =? 0)%nat.

Definition rows_ok (rows : list string) : bool :=
  (length rows =? 6)%nat && forallb row_ok rows.

(** The callback of the outer [forEach], as [numberToAscii_digits] has it. *)
Definition add_digit (len : nat) (digit : string) (index : nat)
    (lines : list string) : list string :=
  match ASCII_NUMBERS digit with
  | Some asciiDigit =>
      forEach (fun line lineIndex lines =>
        add_at lineIndex
          (line +:+ (if (Z.of_nat index <? Z.of_nat len - 1)%Z then "  " else ""))
          lines) asciiDigit lines
  | None => lines
  end.

(** Line [r] of the characters from position [index] on. *)
Definition art_tail (len r index : nat) (rest : list string) : string :=
  foldr String.append "" (imap (fun j => art_piece len r (index + j)) rest).


(** A time field of a response body, read back as a number. *)
Definition time_field (r : response) (k : string) : option Z :=
  match get_prop_opt (body r) k with
  | VStr t => parse_decimal t
  | _ => None
  end.

(** Two accepted requests in one run. *)
Definition two_jobs : list input :=
  [ PostStartJob increment_request 1700000000123 1700000000124 1700000000125;
    Settle 0 TimerFired;
    PostStartJob increment_request 1700000003456 1700000003457 1700000003458 ].

(** A job whose payment the first query confirms, asked for its status
    while the increment is pending. *)
Definition confirmed_job : list input :=
  [ PostStartJob increment_request 1700000000123 1700000000124 1700000000125;
    Settle 0 TimerFired;
    Settle 0 (QueryResolved (payment_answer "Success") 1700000005200);
    GetStatus (VStr (sample_uuid 1)) ].

(** The server while the first payment query of a job is in flight. *)
Definition polling_server : server :=
  fst (run sample_uuid (boot sample_uuid)
         [ PostStartJob increment_request 1700000000123 1700000000124 1700000000125;
           Settle 0 TimerFired ]).

(** Failed queries read as "not yet confirmed": when the query of the
    [i]-th lifecycle fails, its job is still [awaiting_payment] and the
    lifecycle sleeps towards the next query. *)
Definition query_failure_keeps_polling (uuidv4 : nat -> string) (s : server)
    (i : nat) (err : thrown) : Prop :=
  forall t start,
    tasks s !! i = Some t ->
    t_phase t = Querying start ->
    let s' := fst (step uuidv4 s (Settle i (QueryRejected err))) in
    status <$> jobs s' !! t_jobId t = Some (status_string AwaitingPayment)
    /\ t_phase <$> tasks s' !! i = Some (Sleeping start).

(** The server right after an accepted request: the job is
    [awaiting_payment] and its lifecycle waits for the first timer. *)
Definition awaiting_server : server :=
  fst (run sample_uuid (boot sample_uuid)
         [ PostStartJob increment_request 1700000000123 1700000000124 1700000000125 ]).

(** The event is not a payment answer with status 'Success'. *)
Definition no_success (ev : event) : bool :=
  match ev with
  | QueryResolved check_data _ => negb (confirms check_data)
  | _ => true
  end.

(** Every unconfirmed job ends in the timeout: a lifecycle that ends
    without any query having reported success leaves the job [failed]
    with the timeout result. *)
Definition unconfirmed_job_times_out (jobId : string) (start : Z)
    (evs : list event) (s : server) : Prop :=
  forallb no_success evs = true ->
  forall s',
    settle_all jobId (Sleeping start) evs s = Some (Finished, s') ->
    jobs s' !! jobId = Some {| status := status_string Failed;
                               result := VStr "Payment timeout" |}.

(** The answer to the [i]-th query and the clock at the test after it. *)
Definition round (answer : nat -> jsval) (clock : nat -> Z) (i : nat) : jsval * Z :=
  (answer i, clock i).

(** Idempotent release: whatever signals arrive, [wallet.close()] is
    called at most once. *)
Definition released_at_most_once (evs : list Shutdown.signal) : Prop :=
  (Shutdown.wallet_close_calls (Shutdown.handle_all Shutdown.serving evs) <= 1)%nat.

(** No string occurs twice. *)
Fixpoint distinct (l : list string) : bool :=
  match l with
  | [] => true
  | x :: rest => negb (existsb (String.eqb x) rest) && distinct rest
  end.

(** [uuidv4] gave different identifiers at its first [n] calls. *)
Definition fresh_upto (uuidv4 : nat -> string) (n : nat) : Prop :=
  forall i j, (i < n)%nat -> (j < n)%nat -> uuidv4 i = uuidv4 j -> i = j.

(** The statuses a job has been given when its lifecycle is in a phase. *)
Definition expected (p : phase) (l : list string) : Prop :=
  match p with
  | Sleeping _ | Querying _ => l = ["awaiting_payment"]
  | Incrementing => l = ["awaiting_payment"; "running"]
  | Finished =>
      l = ["awaiting_payment"; "failed"]
      \/ l = ["awaiting_payment"; "running"; "completed"]
      \/ l = ["awaiting_payment"; "running"; "failed"]
  end.

(** What every reachable server satisfies: each lifecycle's job has the
    history its phase calls for, lifecycles have identifiers [uuidv4]
    has issued, no two share one, and every write belongs to one. *)
Record Inv (uuidv4 : nat -> string) (s : server) : Prop := {
  inv_expected : forall i t,
    tasks s !! i = Some t ->
    expected (t_phase t) (writes_of (t_jobId t) (history s));
  inv_ids : forall i t,
    tasks s !! i = Some t ->
    exists k, (k < uuid_calls s)%nat /\ t_jobId t = uuidv4 k;
  inv_inj : forall i i' t t',
    tasks s !! i = Some t -> tasks s !! i' = Some t' ->
    t_jobId t = t_jobId t' -> i = i';
  inv_hist : forall w,
    In w (history s) ->
    exists i t, tasks s !! i = Some t /\ t_jobId t = fst w
}.

(** Two jobs whose lifecycles interleave: the first is paid and
    completes, the second times out. *)
Definition interleaved_jobs : list input :=
  [ PostStartJob increment_request 1700000000123 1700000000124 1700000000125;
    Settle 0 TimerFired;
    PostStartJob increment_request 1700000003456 1700000003457 1700000003458;
    Settle 0 (QueryResolved (payment_answer "Success") 1700000005300);
    Settle 1 TimerFired;
    Settle 1 (QueryResolved (payment_answer "Pending") 1700000123500);
    Settle 0 (IncrementResolved (VObj [("txId", VStr "00aa")]));
    GetStatus (VStr (sample_uuid 1)) ].

(** The last record written for a job. *)
Definition last_write (jobId : string) (h : list (string * job)) : option job :=
  last (List.map snd (List.filter (fun w => String.eqb (fst w) jobId) h)).

(** The Map agrees with the history of its writes. *)
Definition registry_matches (s : server) : Prop :=
  forall jobId, jobs s !! jobId = last_write jobId (history s).

(** ** Predicates on requests and runs *)

(** [null] or [undefined]. *)
Definition is_nullish (v : jsval) : bool :=
  match v with
  | VUndefined | VNull => true
  | _ => false
  end.

(** The entry is something on which [entry.key === 'task'] holds. *)
Definition has_task_key (entry : jsval) : bool :=
  strict_eq_str (get_prop_opt entry "key") "task".

(** Entries the search of [find] passes over: neither nullish nor
    keyed 'task'. *)
Definition passed_over (entries : list jsval) : bool :=
  forallb (fun x => negb (is_nullish x) && negb (has_task_key x)) entries.

(** The reply is a 200. *)
Definition accepted (o : output) : bool :=
  match o with
  | OutStartJob (Sent r) => (code r =? 200)%Z
  | _ => false
  end.

(** How many requests of a run were accepted. *)
Definition count_accepted (outs : list output) : nat :=
  length (List.filter accepted outs).

(** The 404 of [/status]. *)
Definition not_found : response :=
  {| code := 404; body := VObj [("error", VStr "Job not found")] |}.

(** Every lifecycle and every write carries an identifier [uuidv4]
    has issued in this process. *)
Definition issued_only (uuidv4 : nat -> string) (s : server) : Prop :=
  (forall i t, tasks s !! i = Some t ->
               exists k, (k < uuid_calls s)%nat /\ t_jobId t = uuidv4 k)
  /\ (forall w, In w (history s) ->
                exists k, (k < uuid_calls s)%nat /\ fst w = uuidv4 k).

(** The answer does not confirm and the clock is still short of the
    deadline. *)
Definition keeps_waiting (start : Z) (a : jsval * Z) : bool :=
  negb (confirms (fst a)) && (snd a - start <? timeout)%Z.

(** The lifecycle has left the polling loop. *)
Definition left_polling (p : phase) : bool :=
  match p with
  | Incrementing | Finished => true
  | _ => false
  end.

(** The character has an entry in the table. *)
Definition recognized (digit : string) : bool :=
  match ASCII_NUMBERS digit with
  | Some _ => true
  | None => false
  end.

(** ** The older routes: [/start_job_old] and [/inc] *)

(** [!v] is [negb (truthy v)]. *)
Definition truthy (v : jsval) : bool :=
  match v with
  | VUndefined | VNull => false
  | VBool b => b
  | VNum z => negb (z =? 0)%Z
  | VStr s => negb (String.eqb s "")
  | VArr _ | VObj _ => true
  end.

(** [const { k } = expr], with the message V8 gives when [expr] is
    [null] or [undefined]. *)
Definition destructure (v : jsval) (k expr : string) : completion jsval :=
  match v with
  | VUndefined =>
      Throw (ErrError ("Cannot destructure property '" +:+ k +:+ "' of '" +:+ expr
                       +:+ "' as it is undefined."))
  | VNull =>
      Throw (ErrError ("Cannot destructure property '" +:+ k +:+ "' of '" +:+ expr
                       +:+ "' as it is null."))
  | VObj props => Normal (assoc k props)
  | _ => Normal VUndefined
  end.

(** What [await api.increment(counterContract)] settles to. *)
Inductive settled : Type :=
  | Resolved (result : jsval)
  | Rejected (err : thrown).

Definition DQUOTE : string := String (ascii_of_nat 34) "".

(** [error instanceof Error ? error.message : 'Unknown error occurred'] *)
Definition old_error_message (e : thrown) : string :=
  match e with
  | ErrError m => m
  | ErrOther => "Unknown error occurred"
  end.

(** The [catch] block of [/start_job_old]. *)
Definition start_job_old_catch (e : thrown) : response :=
  res_status_json 500
    (VObj [ ("success", VBool false);
            ("error", VStr "Failed to increment counter");
            ("details", VStr (old_error_message e)) ]).

(** The guards of [/start_job_old], inside its [try]. *)
Definition start_job_old_guards (req_body : jsval) : completion (option response) :=
  do input_data <- destructure req_body "input_data" "req.body";
  if negb (truthy input_data) || negb (Array_isArray input_data) then
    Normal (Some (res_status_json 400
                    (VObj [ ("success", VBool false);
                            ("error",
                             VStr "Invalid request body: input_data must be an array") ])))
  else
    match input_data with
    | VArr items =>
        do taskInput <- Array_find
                          (fun item => do k <- get_prop item "key";
                                       Normal (strict_eq_str k "task")) items;
        do bad <- (if negb (truthy taskInput) then Normal true
                   else do v <- get_prop taskInput "value";
                        Normal (negb (strict_eq_str v "increment")));
        if bad then
          Normal (Some (res_status_json 400
                          (VObj [ ("success", VBool false);
                                  ("error",
                                   VStr ("Invalid task value: must be " +:+ DQUOTE
                                         +:+ "increment" +:+ DQUOTE)) ])))
        else Normal None
    | _ =>
        Normal (Some (res_status_json 400
                        (VObj [ ("success", VBool false);
                                ("error",
                                 VStr "Invalid request body: input_data must be an array") ])))
    end.

(** [app.post('/start_job_old')]: the response, and whether
    [api.increment] was called. [increment] is what that call settles
    to when it is made. *)
Definition start_job_old (req_body : jsval) (increment : settled) : response * bool :=
  match start_job_old_guards req_body with
  | Throw e => (start_job_old_catch e, false)
  | Normal (Some r) => (r, false)
  | Normal None =>
      match increment with
      | Resolved result =>
          match get_prop result "txId" with
          | Normal txId => (res_json (VObj [("job_id", txId)]), true)
          | Throw e => (start_job_old_catch e, true)
          end
      | Rejected e => (start_job_old_catch e, true)
      end
  end.

(** [app.get('/inc')] of the earlier server. *)
Definition inc (increment : settled) : response :=
  match increment with
  | Resolved result =>
      match get_prop result "txId" with
      | Normal txId => res_json (VObj [("success", VBool true); ("txId", txId)])
      | Throw _ =>
          res_status_json 500
            (VObj [("success", VBool false); ("error", VStr "Failed to increment counter")])
      end
  | Rejected _ =>
      res_status_json 500
        (VObj [("success", VBool false); ("error", VStr "Failed to increment counter")])
  end.

(** The signal is a SIGINT. *)
Definition is_SIGINT (ev : Shutdown.signal) : bool :=
  match ev with
  | Shutdown.SIGINT => true
  | Shutdown.WalletClosed => false
  end.

(** The search of [/start_job] for the entry keyed 'task'. *)
Definition find_task (entries : list jsval) : completion jsval :=
  Array_find (fun entry => do k <- get_prop entry "key";
                           Normal (strict_eq_str k "task")) entries.

(** The shapes of the records the handler writes: [null] result while
    awaiting payment, none while running, a message string once
    failed. *)
Definition well_shaped (j : job) : bool :=
  match status_of_string (status j), result j with
  | Some AwaitingPayment, VNull => true
  | Some Running, VUndefined => true
  | Some Completed, _ => true
  | Some Failed, VStr _ => true
  | _, _ => false
  end.

(** A valid request in the words of the spec: [input_data] is an array
    that contains an entry with key "task" and value "increment". *)
Definition spec_valid (req_body : jsval) : bool :=
  match get_prop_opt req_body "input_data" with
  | VArr entries =>
      existsb (fun e => has_task_key e
                        && strict_eq_str (get_prop_opt e "value") "increment") entries
  | _ => false
  end.

(** A request whose 'increment' entry stands behind another entry keyed
    'task'. *)
Definition shadowed_request : jsval :=
  VObj [("input_data",
         VArr [ VObj [("key", VStr "task"); ("value", VStr "decrement")];
                VObj [("key", VStr "task"); ("value", VStr "increment")] ])].


(** * Properties *)

(** ** The ASCII art *)

Lemma table_rows_ok : forallb (fun kv => rows_ok (snd kv)) ASCII_NUMBERS_table = true.
Proof. vm_compute. reflexivity. Qed.

Lemma lookup_table_In digit t rows :
  lookup_table digit t = Some rows -> exists k, In (k, rows) t.
Proof.
  induction t as [|[k r] t IH]; simpl; [discriminate|].
  destruct (String.eqb k digit).
  - intros [= ->]. exists k. now left.
  - intros H. destruct (IH H) as [k' Hk']. exists k'. now right.
Qed.

Lemma ASCII_NUMBERS_rows_ok digit rows :
  ASCII_NUMBERS digit = Some rows -> rows_ok rows = true.
Proof.
  intros H. apply lookup_table_In in H as [k Hk].
  pose proof table_rows_ok as Hall.
  rewrite forallb_forall in Hall. exact (Hall _ Hk).
Qed.

Lemma ASCII_NUMBERS_six digit rows :
  ASCII_NUMBERS digit = Some rows ->
  exists r0 r1 r2 r3 r4 r5, rows = [r0; r1; r2; r3; r4; r5].
Proof.
  intros H. apply ASCII_NUMBERS_rows_ok in H.
  unfold rows_ok in H. apply andb_prop in H as [Hlen _].
  apply Nat.eqb_eq in Hlen.
  do 6 (destruct rows as [|? rows]; [discriminate Hlen|]).
  destruct rows; [|discriminate Hlen]. eauto 10.
Qed.

Lemma append_cons x (a b : string) : String x a +:+ b = String x (a +:+ b).
Proof. reflexivity. Qed.

Lemma string_app_assoc (a b c : string) : (a +:+ b) +:+ c = a +:+ (b +:+ c).
Proof.
  induction a as [|x a IH]; [reflexivity|].
  rewrite !append_cons. f_equal. exact IH.
Qed.

Lemma string_app_nil_r (a : string) : a +:+ "" = a.
Proof.
  induction a as [|x a IH]; [reflexivity|].
  rewrite append_cons. f_equal. exact IH.
Qed.


Lemma separator_test (index len : nat) :
  (Z.of_nat index <? Z.of_nat len - 1)%Z = (index <? len - 1)%nat.
Proof.
  destruct (Z.ltb_spec (Z.of_nat index) (Z.of_nat len - 1));
    destruct (Nat.ltb_spec index (len - 1)); try reflexivity; lia.
Qed.

Lemma add_digit_lines len digit index l0 l1 l2 l3 l4 l5 :
  add_digit len digit index [l0; l1; l2; l3; l4; l5] =
  [ l0 +:+ art_piece len 0 index digit; l1 +:+ art_piece len 1 index digit;
    l2 +:+ art_piece len 2 index digit; l3 +:+ art_piece len 3 index digit;
    l4 +:+ art_piece len 4 index digit; l5 +:+ art_piece len 5 index digit ].
Proof.
  unfold add_digit, art_piece.
  destruct (ASCII_NUMBERS digit) as [rows|] eqn:E.
  - destruct (ASCII_NUMBERS_six _ _ E) as (r0 & r1 & r2 & r3 & r4 & r5 & ->).
    rewrite separator_test. reflexivity.
  - now rewrite !string_app_nil_r.
Qed.

Lemma art_tail_cons len r index d rest :
  art_tail len r index (d :: rest) =
  art_piece len r index d +:+ art_tail len r (S index) rest.
Proof.
  unfold art_tail. simpl. rewrite Nat.add_0_r. f_equal. f_equal.
  apply imap_ext. intros j x _. simpl. f_equal. lia.
Qed.

Lemma forEach_digits len rest :
  forall index l0 l1 l2 l3 l4 l5,
    forEach_from (add_digit len) rest index [l0; l1; l2; l3; l4; l5] =
    [ l0 +:+ art_tail len 0 index rest; l1 +:+ art_tail len 1 index rest;
      l2 +:+ art_tail len 2 index rest; l3 +:+ art_tail len 3 index rest;
      l4 +:+ art_tail len 4 index rest; l5 +:+ art_tail len 5 index rest ].
Proof.
  induction rest as [|d rest IH]; intros index l0 l1 l2 l3 l4 l5.
  - simpl. unfold art_tail. simpl. now rewrite !string_app_nil_r.
  - cbn [forEach_from]. rewrite add_digit_lines, IH, !art_tail_cons.
    now rewrite !string_app_assoc.
Qed.

Lemma numberToAscii_digits_spec digits :
  numberToAscii_digits digits = art_spec digits.
Proof.
  unfold numberToAscii_digits, forEach.
  change (forEach_from _ digits 0 (replicate 6 ""))
    with (forEach_from (add_digit (length digits)) digits 0 [""; ""; ""; ""; ""; ""]).
  rewrite forEach_digits. reflexivity.
Qed.








(** ** The [/start_job] response *)

Lemma parse_decimal_toString (z : Z) : parse_decimal (Number_toString z) = Some z.
Proof.
  unfold parse_decimal, Number_toString.
  rewrite NilZero.isi.
  - now rewrite DecimalZ.of_to.
  - destruct z; simpl; try discriminate.
    intros [= H]. now apply DecimalPos.Unsigned.to_uint_nonnil in H.
  - destruct z; simpl; try discriminate.
    intros [= H]. now apply DecimalPos.Unsigned.to_uint_nonnil in H.
Qed.

Lemma validate_400 req_body r :
  validate req_body = Normal (Some r) -> code r = 400%Z.
Proof.
  unfold validate. destruct (get_prop req_body "input_data") as [inputData|e];
    simpl; [|discriminate].
  destruct inputData; try (intros [= <-]; reflexivity).
  destruct (Array_find _ items) as [found|e]; simpl; [|discriminate].
  destruct (negb _); [|discriminate]. intros [= <-]. reflexivity.
Qed.

(** The response of an accepted request, and the server it leaves. *)
Lemma start_job_accepted uuidv4 req_body t_now t_start t_test s :
  validate req_body = Normal None ->
  let jobId := uuidv4 (uuid_calls s) in
  let paymentId := uuidv4 (S (uuid_calls s)) in
  let now := (t_now / 1000)%Z in
  let s1 := jobs_set jobId {| status := "awaiting_payment"; result := VNull |} s in
  let pl := loop_test false t_start t_test jobId s1 in
  start_job uuidv4 req_body t_now t_start t_test s =
  (Sent {| code := 200;
           body := VObj [
             ("job_id", VStr jobId);
             ("payment_id", VStr paymentId);
             ("inputHash", VStr (inputHash s));
             ("blockchainIdentifier", VStr "Cardano");
             ("unlockTime", VStr (Number_toString (now + 600)));
             ("externalDisputeUnlockTime", VStr (Number_toString (now + 1800)));
             ("submitResultTime", VStr (Number_toString (now + 1200))) ] |},
   {| inputHash := inputHash (snd pl);
      jobs := jobs (snd pl);
      history := history (snd pl);
      uuid_calls := S (S (uuid_calls (snd pl)));
      tasks := tasks (snd pl) ++ [ {| t_jobId := jobId; t_paymentId := paymentId;
                                      t_phase := fst pl |} ] |}).
Proof.
  intros Hv. unfold start_job. rewrite Hv. cbv zeta.
  destruct (loop_test _ _ _ _ _) as [p s2]. reflexivity.
Qed.

Lemma start_job_200 uuidv4 req_body t_now t_start t_test s r s' :
  start_job uuidv4 req_body t_now t_start t_test s = (Sent r, s') ->
  code r = 200%Z ->
  validate req_body = Normal None.
Proof.
  intros H Hc. unfold start_job in H.
  destruct (validate req_body) as [[r400|]|e] eqn:Hv; [| reflexivity | discriminate].
  injection H as <- <-. apply validate_400 in Hv. congruence.
Qed.

(** C7. In every 200 response of [/start_job] the three time fields are
    the decimal renderings of createdAt + 600, createdAt + 1200 and
    createdAt + 1800, where createdAt is the creation time in Unix
    seconds; read back as numbers they satisfy
    unlockTime < submitResultTime < externalDisputeUnlockTime. *)
Theorem start_job_time_fields uuidv4 req_body t_now t_start t_test s r s' :
  start_job uuidv4 req_body t_now t_start t_test s = (Sent r, s') ->
  code r = 200%Z ->
  let createdAt := (t_now / 1000)%Z in
  get_prop_opt (body r) "unlockTime" = VStr (Number_toString (createdAt + 600))
  /\ get_prop_opt (body r) "submitResultTime" = VStr (Number_toString (createdAt + 1200))
  /\ get_prop_opt (body r) "externalDisputeUnlockTime"
       = VStr (Number_toString (createdAt + 1800))
  /\ exists unlockTime submitResultTime externalDisputeUnlockTime,
       time_field r "unlockTime" = Some unlockTime
       /\ time_field r "submitResultTime" = Some submitResultTime
       /\ time_field r "externalDisputeUnlockTime" = Some externalDisputeUnlockTime
       /\ (unlockTime < submitResultTime < externalDisputeUnlockTime)%Z.
Proof.
  intros H Hc createdAt.
  pose proof (start_job_200 _ _ _ _ _ _ _ _ H Hc) as Hv.
  rewrite (start_job_accepted uuidv4 _ t_now t_start t_test s Hv) in H.
  injection H as <- _. fold createdAt.
  repeat split; try reflexivity.
  exists (createdAt + 600)%Z, (createdAt + 1200)%Z, (createdAt + 1800)%Z.
  unfold time_field. cbn [body get_prop_opt assoc String.eqb Ascii.eqb Bool.eqb].
  rewrite !parse_decimal_toString. repeat split; lia.
Qed.

Lemma start_job_time_fields_witness :
  exists r s',
    start_job sample_uuid increment_request 1700000000123 1700000000124
      1700000000125 (boot sample_uuid) = (Sent r, s')
    /\ code r = 200%Z
    /\ get_prop_opt (body r) "unlockTime" = VStr "1700000600"
    /\ get_prop_opt (body r) "submitResultTime" = VStr "1700001200"
    /\ get_prop_opt (body r) "externalDisputeUnlockTime" = VStr "1700001800".
Proof.
  eexists _, _. split; [vm_compute; reflexivity|]. split; [reflexivity|].
  pose proof (start_job_time_fields sample_uuid increment_request 1700000000123
                1700000000124 1700000000125 (boot sample_uuid) _ _
                eq_refl eq_refl) as (H1 & H2 & H3 & _).
  exact (conj H1 (conj H2 H3)).
Defined.

Lemma step_inputHash uuidv4 s inp :
  inputHash (fst (step uuidv4 s inp)) = inputHash s.
Proof.
  destruct inp as [req_body t_now t_start t_test | job_id | i ev]; simpl.
  - unfold start_job. destruct (validate req_body) as [[r|]|e]; try reflexivity.
    cbv zeta. unfold loop_test. simpl.
    destruct (t_test - t_start <? timeout)%Z; reflexivity.
  - reflexivity.
  - destruct (tasks s !! i) as [t|]; [|reflexivity].
    destruct (t_phase t), ev; simpl; try reflexivity.
    + unfold loop_test.
      destruct (negb (confirms check_data) && (now - start <? timeout)%Z);
        [reflexivity|]. destruct (negb (confirms check_data)); reflexivity.
    + destruct (get_prop result0 "txId"); reflexivity.
Qed.

Lemma step_start_job_fields uuidv4 s inp r :
  snd (step uuidv4 s inp) = OutStartJob (Sent r) ->
  code r = 200%Z ->
  get_prop_opt (body r) "inputHash" = VStr (inputHash s)
  /\ get_prop_opt (body r) "blockchainIdentifier" = VStr "Cardano".
Proof.
  destruct inp as [req_body t_now t_start t_test | job_id | i ev]; simpl.
  - destruct (start_job uuidv4 req_body t_now t_start t_test s) as [rep s'] eqn:E.
    simpl. intros [= ->] Hc.
    pose proof (start_job_200 _ _ _ _ _ _ _ _ E Hc) as Hv.
    rewrite (start_job_accepted uuidv4 _ t_now t_start t_test s Hv) in E.
    injection E as <- _. split; reflexivity.
  - discriminate.
  - destruct (tasks s !! i) as [t|]; [|discriminate].
    destruct (settle _ _ _ _) as [[p s']|]; discriminate.
Qed.

Lemma run_cons uuidv4 s inp rest :
  run uuidv4 s (inp :: rest) =
  (fst (run uuidv4 (fst (step uuidv4 s inp)) rest),
   snd (step uuidv4 s inp) :: snd (run uuidv4 (fst (step uuidv4 s inp)) rest)).
Proof.
  simpl. destruct (step uuidv4 s inp) as [s' o]. simpl.
  destruct (run uuidv4 s' rest) as [s'' os]. reflexivity.
Qed.

Lemma run_start_job_fields uuidv4 inputs :
  forall s r,
    In (OutStartJob (Sent r)) (snd (run uuidv4 s inputs)) ->
    code r = 200%Z ->
    get_prop_opt (body r) "inputHash" = VStr (inputHash s)
    /\ get_prop_opt (body r) "blockchainIdentifier" = VStr "Cardano".
Proof.
  induction inputs as [|inp rest IH]; intros s r Hin Hc.
  - destruct Hin.
  - rewrite run_cons in Hin. simpl in Hin. destruct Hin as [Hhere | Hlater].
    + now apply (step_start_job_fields uuidv4 s inp).
    + rewrite <- (step_inputHash uuidv4 s inp). now apply IH.
Qed.

(** C9. Any two 200 responses of [/start_job] in one run of the process
    carry the same [inputHash], the UUID drawn once when the server
    started, and the [blockchainIdentifier] "Cardano". *)
Theorem inputHash_constant_per_process uuidv4 inputs r1 r2 :
  let outs := snd (run uuidv4 (boot uuidv4) inputs) in
  In (OutStartJob (Sent r1)) outs ->
  In (OutStartJob (Sent r2)) outs ->
  code r1 = 200%Z ->
  code r2 = 200%Z ->
  get_prop_opt (body r1) "inputHash" = get_prop_opt (body r2) "inputHash"
  /\ get_prop_opt (body r1) "inputHash" = VStr (uuidv4 0%nat)
  /\ get_prop_opt (body r1) "blockchainIdentifier" = VStr "Cardano"
  /\ get_prop_opt (body r2) "blockchainIdentifier" = VStr "Cardano".
Proof.
  intros outs H1 H2 Hc1 Hc2.
  destruct (run_start_job_fields _ _ _ _ H1 Hc1) as [Ha Hb].
  destruct (run_start_job_fields _ _ _ _ H2 Hc2) as [Hc Hd].
  simpl in Ha, Hc. rewrite Ha, Hc. auto.
Qed.

Lemma inputHash_constant_per_process_witness :
  exists r1 r2,
    nth_error (snd (run sample_uuid (boot sample_uuid) two_jobs)) 0
      = Some (OutStartJob (Sent r1))
    /\ nth_error (snd (run sample_uuid (boot sample_uuid) two_jobs)) 2
      = Some (OutStartJob (Sent r2))
    /\ get_prop_opt (body r1) "job_id" <> get_prop_opt (body r2) "job_id"
    /\ get_prop_opt (body r1) "inputHash" = get_prop_opt (body r2) "inputHash".
Proof.
  eexists _, _. split; [vm_compute; reflexivity|].
  split; [vm_compute; reflexivity|]. split; [discriminate|].
  refine (proj1 (inputHash_constant_per_process sample_uuid two_jobs _ _ _ _ _ _)).
  - vm_compute. left. reflexivity.
  - vm_compute. right. right. left. reflexivity.
  - reflexivity.
  - reflexivity.
Defined.




Lemma shadowed_request_gets_400 :
  spec_valid shadowed_request = true
  /\ start_job sample_uuid shadowed_request 1700000000123 1700000000124
       1700000000125 (boot sample_uuid)
     = (Sent {| code := 400; body := VObj [("error", VStr "Unsupported task")] |},
        boot sample_uuid).
Proof. split; vm_compute; reflexivity. Qed.

(** ** What [/status] sends *)

(** C5. The job of an accepted request whose payment the first query
    confirms is [running] while [api.increment] is pending; [/status]
    then answers 200 with [job_id] and [status] only: the record stored
    for [running] has no [result], and the body carries no such field. *)
Theorem status_of_running_job_omits_result :
  last (snd (run sample_uuid (boot sample_uuid) confirmed_job)) =
    Some (OutStatus {| code := 200;
                       body := VObj [ ("job_id", VStr (sample_uuid 1));
                                      ("status", VStr "running") ] |})
  /\ has_field "result"
       (body (get_status (VStr (sample_uuid 1))
                (fst (run sample_uuid (boot sample_uuid) confirmed_job)))) = false.
Proof. split; vm_compute; reflexivity. Qed.

(** In the other three states the body has all three fields. *)
Lemma status_three_fields (s : server) (jobId : string) (j : job) :
  jobs s !! jobId = Some j ->
  jobId <> "" ->
  result j <> VUndefined ->
  let b := body (get_status (VStr jobId) s) in
  has_field "job_id" b = true /\ has_field "status" b = true
  /\ has_field "result" b = true.
Proof.
  intros Hj Hne Hres b. subst b. unfold get_status.
  apply String.eqb_neq in Hne. rewrite Hne, Hj.
  destruct j as [st res]. simpl in Hres.
  destruct res; try contradiction; repeat split; reflexivity.
Qed.

(** ** Requests the guards turn away *)

(** C6. On the body [{"input_data":[null]}], which has no entry with key
    "task" and value "increment", the handler throws while reading
    [entry.key] inside [find]: no response is sent, neither the 400 nor
    any other; the registry is untouched and no lifecycle starts. *)
Theorem start_job_null_entry_throws :
  start_job sample_uuid (VObj [("input_data", VArr [VNull])])
    1700000000123 1700000000124 1700000000125 (boot sample_uuid) =
  (NoReply (ErrError "Cannot read properties of null (reading 'key')"),
   boot sample_uuid).
Proof. vm_compute. reflexivity. Qed.

(** Whatever the guards answer themselves is a 400 with an [error]
    field, and leaves the server as it was. *)
Lemma start_job_rejection uuidv4 req_body t_now t_start t_test s r :
  validate req_body = Normal (Some r) ->
  start_job uuidv4 req_body t_now t_start t_test s = (Sent r, s)
  /\ code r = 400%Z /\ has_field "error" (body r) = true.
Proof.
  intros Hv. unfold start_job. rewrite Hv. split; [reflexivity|].
  split; [now apply validate_400 in Hv|].
  unfold validate in Hv.
  destruct (get_prop req_body "input_data") as [inputData|e]; simpl in Hv;
    [|discriminate].
  destruct inputData; try (injection Hv as <-; reflexivity).
  destruct (Array_find _ items) as [found|e]; simpl in Hv; [|discriminate].
  destruct (negb _); [|discriminate]. injection Hv as <-. reflexivity.
Qed.

(** A body without [input_data], or with one that is not an array, is
    answered 400. *)
Lemma validate_not_array (props : list (string * jsval)) :
  Array_isArray (assoc "input_data" props) = false ->
  validate (VObj props) =
  Normal (Some (res_status_json 400 (VObj [("error", VStr "input_data must be an array")]))).
Proof.
  intros H. unfold validate. simpl.
  destruct (assoc "input_data" props); try reflexivity. discriminate.
Qed.

(** ** Payment polling *)

Lemma query_failure_ends_polling :
  ~ query_failure_keeps_polling sample_uuid polling_server 0
      (ErrError "Network Error").
Proof.
  intros H.
  specialize (H {| t_jobId := sample_uuid 1; t_paymentId := sample_uuid 2;
                   t_phase := Querying 1700000000124 |} 1700000000124%Z
                eq_refl eq_refl).
  destruct H as [H _]. vm_compute in H. discriminate H.
Qed.

Lemma alter_phase_lookup (l : list task) (i : nat) (t : task) (p : phase) :
  l !! i = Some t ->
  t_phase <$> alter (fun t => {| t_jobId := t_jobId t; t_paymentId := t_paymentId t;
                                 t_phase := p |}) i l !! i = Some p.
Proof. intros H. rewrite list_lookup_alter_eq, H. reflexivity. Qed.

(** C1, amended. While a payment query of a lifecycle is in flight:
    if the query fails, the job is set to [failed] with the error's
    message (or 'Unknown error') as result and the lifecycle ends; if
    the query is answered with a status other than 'Success' and the
    clock is still below start + 120000 ms, the registry is unchanged
    and the lifecycle sleeps towards the next query. *)
Theorem query_outcome_while_polling uuidv4 s i t start :
  tasks s !! i = Some t ->
  t_phase t = Querying start ->
  (forall err,
      let s' := fst (step uuidv4 s (Settle i (QueryRejected err))) in
      jobs s' !! t_jobId t = Some {| status := status_string Failed;
                                     result := catch_message err |}
      /\ t_phase <$> tasks s' !! i = Some Finished)
  /\ (forall check_data now,
         confirms check_data = false ->
         (now - start < timeout)%Z ->
         let s' := fst (step uuidv4 s (Settle i (QueryResolved check_data now))) in
         jobs s' = jobs s
         /\ t_phase <$> tasks s' !! i = Some (Sleeping start)).
Proof.
  intros Ht Hp. split.
  - intros err. cbn [step]. rewrite Ht, Hp. cbn [settle on_catch fst].
    split.
    + cbn [set_phase jobs jobs_set]. apply lookup_insert_eq.
    + cbn [set_phase tasks jobs_set]. now apply alter_phase_lookup with t.
  - intros check_data now Hc Hnow. cbn [step]. rewrite Ht, Hp.
    cbn [settle]. unfold loop_test. rewrite Hc. cbn [negb andb].
    assert ((now - start <? timeout)%Z = true) as -> by now apply Z.ltb_lt.
    cbn [fst]. split; [reflexivity|].
    cbn [set_phase tasks]. now apply alter_phase_lookup with t.
Qed.

Lemma query_outcome_while_polling_witness :
  jobs (fst (step sample_uuid polling_server
               (Settle 0 (QueryRejected (ErrError "Network Error")))))
    !! sample_uuid 1
  = Some {| status := "failed"; result := VStr "Network Error" |}
  /\ jobs (fst (step sample_uuid polling_server
                  (Settle 0 (QueryResolved (payment_answer "Pending") 1700000005200))))
     = jobs polling_server.
Proof.
  destruct (query_outcome_while_polling sample_uuid polling_server 0
              {| t_jobId := sample_uuid 1; t_paymentId := sample_uuid 2;
                 t_phase := Querying 1700000000124 |} 1700000000124%Z
              eq_refl eq_refl) as [Hrej Hres].
  split.
  - exact (proj1 (Hrej (ErrError "Network Error"))).
  - exact (proj1 (Hres (payment_answer "Pending") 1700000005200%Z eq_refl eq_refl)).
Defined.

Lemma failed_query_is_not_a_timeout :
  ~ unconfirmed_job_times_out (sample_uuid 1) 1700000000124
      [TimerFired; QueryRejected (ErrError "Network Error")] awaiting_server.
Proof.
  intros H. specialize (H eq_refl _ eq_refl).
  vm_compute in H. discriminate H.
Qed.

Lemma poll_until_deadline jobId start s (answer : nat -> jsval) (clock : nat -> Z) :
  (forall i, confirms (answer i) = false) ->
  forall k i0,
    (start + timeout <= clock (i0 + k)%nat)%Z ->
    exists n,
      (1 <= n <= S k)%nat
      /\ settle_all jobId (Sleeping start)
           (poll_rounds (List.map (round answer clock) (seq i0 n))) s
         = Some (Finished,
                 jobs_set jobId {| status := "failed";
                                   result := VStr "Payment timeout" |} s).
Proof.
  intros Hno. induction k as [|k IH]; intros i0 Hclock.
  - exists 1%nat. split; [lia|]. rewrite Nat.add_0_r in Hclock.
    cbn [seq List.map poll_rounds flat_map round fst snd app settle_all settle].
    unfold loop_test. rewrite Hno. cbn [negb andb].
    assert ((clock i0 - start <? timeout)%Z = false) as -> by (apply Z.ltb_ge; lia).
    reflexivity.
  - destruct (clock i0 - start <? timeout)%Z eqn:E.
    + destruct (IH (S i0)) as (n & Hn & Hrun).
      { replace (S i0 + k)%nat with (i0 + S k)%nat by lia. exact Hclock. }
      exists (S n). split; [lia|].
      cbn [seq List.map poll_rounds flat_map round fst snd app settle_all settle].
      unfold loop_test. rewrite Hno, E. cbn [negb andb]. exact Hrun.
    + exists 1%nat. split; [lia|].
      cbn [seq List.map poll_rounds flat_map round fst snd app settle_all settle].
      unfold loop_test. rewrite Hno, E. reflexivity.
Qed.

(** C3, amended. If every payment query of a lifecycle is answered and
    no answer carries the status 'Success', then, the timers never
    firing early (the clock at the test after the [i]-th query, counted
    from 0, shows at least start + 5000 (i + 1) ms), the loop gives up
    after at least one and at most 24 queries and sets the job to
    [failed] with result 'Payment timeout'. *)
Theorem unpaid_job_times_out jobId start s (answer : nat -> jsval) (clock : nat -> Z) :
  (forall i, confirms (answer i) = false) ->
  (forall i, (start + 5000 * (Z.of_nat i + 1) <= clock i)%Z) ->
  exists n,
    (1 <= n <= 24)%nat
    /\ settle_all jobId (Sleeping start)
         (poll_rounds (List.map (round answer clock) (seq 0 n))) s
       = Some (Finished,
               jobs_set jobId {| status := status_string Failed;
                                 result := VStr "Payment timeout" |} s).
Proof.
  intros Hno Hclock.
  apply (poll_until_deadline jobId start s answer clock Hno 23 0).
  specialize (Hclock 23%nat). unfold timeout. simpl. lia.
Qed.

Lemma unpaid_job_times_out_witness :
  exists n,
    (1 <= n <= 24)%nat
    /\ (jobs <$> (snd <$>
          settle_all (sample_uuid 1) (Sleeping 1700000000124)
            (poll_rounds
               (List.map (round (fun _ => payment_answer "Pending")
                            (fun i => 1700000000124 + 5000 * (Z.of_nat i + 1))%Z)
                  (seq 0 n)))
            awaiting_server))
       = Some (<[sample_uuid 1 := {| status := "failed";
                                     result := VStr "Payment timeout" |}]>
                 (jobs awaiting_server)).
Proof.
  destruct (unpaid_job_times_out (sample_uuid 1) 1700000000124 awaiting_server
              (fun _ => payment_answer "Pending")
              (fun i => 1700000000124 + 5000 * (Z.of_nat i + 1))%Z)
    as (n & Hn & Hrun).
  - intros i. reflexivity.
  - intros i. lia.
  - exists n. split; [exact Hn|]. rewrite Hrun. reflexivity.
Defined.

(** ** Shutdown *)

Lemma second_SIGINT_closes_again :
  ~ released_at_most_once [Shutdown.SIGINT; Shutdown.SIGINT].
Proof. unfold released_at_most_once. simpl. lia. Qed.

Lemma handle_SIGINTs (n : nat) :
  forall p,
    Shutdown.exit_code p = None ->
    Shutdown.handle_all p (replicate (S n) Shutdown.SIGINT) =
    {| Shutdown.interval_armed := false;
       Shutdown.wallet_close_calls := (S n + Shutdown.wallet_close_calls p)%nat;
       Shutdown.closes_pending := (S n + Shutdown.closes_pending p)%nat;
       Shutdown.exit_code := None |}.
Proof.
  unfold Shutdown.handle_all.
  induction n as [|n IH]; intros p Hp.
  - simpl. unfold Shutdown.handle. rewrite Hp. reflexivity.
  - change (replicate (S (S n)) Shutdown.SIGINT)
      with (Shutdown.SIGINT :: replicate (S n) Shutdown.SIGINT).
    cbn [fold_left]. rewrite IH.
    + unfold Shutdown.handle at 1 2. rewrite Hp. simpl. f_equal; lia.
    + unfold Shutdown.handle. rewrite Hp. reflexivity.
Qed.

Lemma handle_after_exit (evs : list Shutdown.signal) :
  forall p c,
    Shutdown.exit_code p = Some c -> Shutdown.handle_all p evs = p.
Proof.
  unfold Shutdown.handle_all.
  induction evs as [|ev evs IH]; intros p c Hp; [reflexivity|].
  simpl. unfold Shutdown.handle at 2. rewrite Hp. now apply IH with c.
Qed.

(** C8, amended. Every SIGINT delivered while the process runs clears
    the interval timer and calls [wallet.close()]; the process exits
    with code 0 as soon as one of these calls resolves, and nothing
    happens after that. The handler keeps no guard: [n + 1] signals
    delivered before the first call resolves make [n + 1] calls of
    [wallet.close()]. *)
Theorem shutdown_closes_once_per_signal (n : nat) (later : list Shutdown.signal) :
  Shutdown.handle_all Shutdown.serving
    (replicate (S n) Shutdown.SIGINT ++ Shutdown.WalletClosed :: later) =
  {| Shutdown.interval_armed := false;
     Shutdown.wallet_close_calls := S n;
     Shutdown.closes_pending := n;
     Shutdown.exit_code := Some 0%Z |}.
Proof.
  unfold Shutdown.handle_all. rewrite fold_left_app.
  fold (Shutdown.handle_all Shutdown.serving (replicate (S n) Shutdown.SIGINT)).
  rewrite handle_SIGINTs by reflexivity. cbn [fold_left].
  set (p := Shutdown.handle _ Shutdown.WalletClosed).
  change (fold_left Shutdown.handle later p) with (Shutdown.handle_all p later).
  rewrite (handle_after_exit later p 0%Z) by reflexivity.
  subst p. rewrite !Nat.add_0_r. reflexivity.
Qed.

(** ** The state machine of a job *)

Lemma distinct_NoDup (l : list string) : distinct l = true -> NoDup l.
Proof.
  induction l as [|x l IH]; simpl; intros H; [constructor|].
  apply andb_prop in H as [Hx Hl]. constructor; [|now apply IH].
  intros Hin. apply list_elem_of_In in Hin.
  assert (existsb (String.eqb x) l = true) as E.
  { apply existsb_exists. exists x. split; [exact Hin|apply String.eqb_refl]. }
  rewrite E in Hx. discriminate.
Qed.

Lemma distinct_fresh_upto (uuidv4 : nat -> string) (n : nat) :
  distinct (uuidv4 <$> seq 0 n) = true -> fresh_upto uuidv4 n.
Proof.
  intros H i j Hi Hj E. apply distinct_NoDup in H.
  apply (proj1 (NoDup_alt _) H i j (uuidv4 i)).
  - rewrite list_lookup_fmap, lookup_seq_lt by exact Hi. reflexivity.
  - rewrite list_lookup_fmap, lookup_seq_lt by exact Hj. simpl. now rewrite E.
Qed.

Lemma fresh_upto_le (uuidv4 : nat -> string) (n m : nat) :
  (n <= m)%nat -> fresh_upto uuidv4 m -> fresh_upto uuidv4 n.
Proof. intros Hle H i j Hi Hj. apply H; lia. Qed.

Lemma writes_of_app jobId (h1 h2 : list (string * job)) :
  writes_of jobId (h1 ++ h2) = (writes_of jobId h1 ++ writes_of jobId h2)%list.
Proof. unfold writes_of. now rewrite List.filter_app, List.map_app. Qed.

Lemma writes_of_other jobId (h : list (string * job)) :
  (forall w, In w h -> fst w <> jobId) -> writes_of jobId h = [].
Proof.
  induction h as [|w h IH]; intros H; [reflexivity|].
  unfold writes_of. simpl.
  destruct (String.eqb (fst w) jobId) eqn:E.
  - apply String.eqb_eq in E. exfalso. apply (H w); [now left|exact E].
  - apply IH. intros w' Hw'. apply H. now right.
Qed.

Lemma writes_of_same jobId (j : job) :
  writes_of jobId [(jobId, j)] = [status j].
Proof. unfold writes_of. simpl. now rewrite String.eqb_refl. Qed.

Lemma writes_of_nil_inv jobId (h : list (string * job)) :
  writes_of jobId h = [] -> forall w, In w h -> fst w <> jobId.
Proof.
  induction h as [|w h IH]; intros H w' Hin; [destruct Hin|].
  unfold writes_of in H. simpl in H.
  destruct (String.eqb (fst w) jobId) eqn:E; [discriminate|].
  destruct Hin as [<- | Hin].
  - now apply String.eqb_neq.
  - now apply IH.
Qed.

Lemma Inv_boot uuidv4 : Inv uuidv4 (boot uuidv4).
Proof.
  split; simpl.
  - intros i t H. now rewrite lookup_nil in H.
  - intros i t H. now rewrite lookup_nil in H.
  - intros i i' t t' H. now rewrite lookup_nil in H.
  - intros w [].
Qed.

(** What one settled promise does: nothing to the registry, or one
    [jobs.set] on the lifecycle's own job, along an arrow. *)
Lemma settle_cases jobId p ev s p' s' :
  settle jobId p ev s = Some (p', s') ->
  (s' = s /\ forall l, expected p l -> expected p' l)
  \/ (exists j, s' = jobs_set jobId j s
                /\ forall l, expected p l -> expected p' (l ++ [status j])).
Proof.
  destruct p, ev; simpl; try discriminate.
  - intros [= <- <-]. left. split; [reflexivity|]. intros l H. exact H.
  - unfold loop_test.
    destruct (negb (confirms check_data) && (now - start <? timeout)%Z).
    + intros [= <- <-]. left. split; [reflexivity|]. intros l H. exact H.
    + destruct (negb (confirms check_data)); intros [= <- <-]; right;
        eexists; (split; [reflexivity|]); intros l ->; simpl; auto.
  - intros [= <- <-]. right. eexists. split; [reflexivity|].
    intros l ->. simpl. auto.
  - destruct (get_prop result0 "txId"); intros [= <- <-]; right;
      eexists; (split; [reflexivity|]); intros l ->; simpl; auto.
  - intros [= <- <-]. right. eexists. split; [reflexivity|].
    intros l ->. simpl. auto.
Qed.

Lemma alter_phase_inv (l : list task) (i i0 : nat) (p : phase) (t0 : task) :
  alter (fun t => {| t_jobId := t_jobId t; t_paymentId := t_paymentId t;
                     t_phase := p |}) i l !! i0 = Some t0 ->
  exists t1,
    l !! i0 = Some t1 /\ t_jobId t0 = t_jobId t1
    /\ (i0 = i -> t_phase t0 = p) /\ (i0 <> i -> t0 = t1).
Proof.
  destruct (decide (i = i0)) as [<- | Hne].
  - rewrite list_lookup_alter_eq. destruct (l !! i) as [t1|]; [|discriminate].
    simpl. intros [= <-]. exists t1.
    split; [reflexivity|]. split; [reflexivity|]. split; [reflexivity|congruence].
  - rewrite list_lookup_alter_ne by exact Hne. intros H. exists t0.
    split; [exact H|]. split; [reflexivity|]. split; [congruence|reflexivity].
Qed.

(** A lifecycle moves on, writing [extra] to its own job only. *)
Lemma Inv_settled uuidv4 s s' i t p' extra :
  Inv uuidv4 s ->
  tasks s !! i = Some t ->
  history s' = (history s ++ extra)%list ->
  uuid_calls s' = uuid_calls s ->
  tasks s' = alter (fun t => {| t_jobId := t_jobId t; t_paymentId := t_paymentId t;
                                t_phase := p' |}) i (tasks s) ->
  (forall w, In w extra -> fst w = t_jobId t) ->
  expected p' (writes_of (t_jobId t) (history s ++ extra)) ->
  Inv uuidv4 s'.
Proof.
  intros [Hexp Hids Hinj Hhist] Ht Hh Hu Hts Hextra Hnew. split.
  - intros i0 t0 H0. rewrite Hts in H0.
    apply alter_phase_inv in H0 as (t1 & H1 & Hid & Hsame & Hother).
    rewrite Hh, Hid. destruct (decide (i0 = i)) as [-> | Hne].
    + rewrite (Hsame eq_refl). assert (t1 = t) as -> by congruence. exact Hnew.
    + rewrite (Hother Hne). rewrite writes_of_app.
      rewrite (writes_of_other (t_jobId t1) extra), app_nil_r; [now apply Hexp with i0|].
      intros w Hw E. rewrite (Hextra w Hw) in E.
      apply Hne. symmetry. now apply (Hinj i i0 t t1).
  - intros i0 t0 H0. rewrite Hts in H0.
    apply alter_phase_inv in H0 as (t1 & H1 & Hid & _). rewrite Hu, Hid.
    now apply Hids with i0.
  - intros i0 i1 t0 t1 H0 H1 E. rewrite Hts in H0, H1.
    apply alter_phase_inv in H0 as (u0 & Hu0 & Hid0 & _).
    apply alter_phase_inv in H1 as (u1 & Hu1 & Hid1 & _).
    apply (Hinj i0 i1 u0 u1 Hu0 Hu1). congruence.
  - intros w Hw. rewrite Hh in Hw. apply in_app_or in Hw.
    assert (exists i0 t1, tasks s !! i0 = Some t1 /\ t_jobId t1 = fst w)
      as (i0 & t1 & H1 & E).
    { destruct Hw as [Hw | Hw]; [now apply Hhist|].
      exists i, t. split; [exact Ht|]. symmetry. now apply Hextra. }
    destruct (decide (i0 = i)) as [-> | Hne].
    + exists i, {| t_jobId := t_jobId t1; t_paymentId := t_paymentId t1;
                   t_phase := p' |}.
      split; [|exact E]. rewrite Hts, list_lookup_alter_eq, H1. reflexivity.
    + exists i0, t1. split; [|exact E].
      rewrite Hts, list_lookup_alter_ne by congruence. exact H1.
Qed.

Lemma Inv_settle uuidv4 s i ev :
  Inv uuidv4 s -> Inv uuidv4 (fst (step uuidv4 s (Settle i ev))).
Proof.
  intros HI. cbn [step].
  destruct (tasks s !! i) as [t|] eqn:Ht; [|exact HI].
  destruct (settle (t_jobId t) (t_phase t) ev s) as [[p' s']|] eqn:Hs; [|exact HI].
  cbn [fst].
  pose proof (inv_expected _ _ HI i t Ht) as Hexp.
  apply settle_cases in Hs as [[-> Hstep] | (j & -> & Hstep)].
  - apply (Inv_settled uuidv4 s _ i t p' []); try reflexivity; try assumption.
    + cbn [set_phase history]. now rewrite app_nil_r.
    + intros w [].
    + rewrite app_nil_r. now apply Hstep.
  - apply (Inv_settled uuidv4 s _ i t p' [(t_jobId t, j)]);
      try reflexivity; try assumption.
    + intros w [<- | []]. reflexivity.
    + rewrite writes_of_app, writes_of_same. now apply Hstep.
Qed.

(** An accepted request adds a lifecycle under an identifier nobody has. *)
Lemma Inv_spawned uuidv4 s s' p extra :
  Inv uuidv4 s ->
  fresh_upto uuidv4 (S (S (uuid_calls s))) ->
  let jobId := uuidv4 (uuid_calls s) in
  history s' = (history s ++ extra)%list ->
  uuid_calls s' = S (S (uuid_calls s)) ->
  tasks s' = (tasks s ++ [ {| t_jobId := jobId;
                              t_paymentId := uuidv4 (S (uuid_calls s));
                              t_phase := p |} ])%list ->
  (forall w, In w extra -> fst w = jobId) ->
  expected p (writes_of jobId extra) ->
  Inv uuidv4 s'.
Proof.
  intros [Hexp Hids Hinj Hhist] Hfresh jobId Hh Hu Hts Hextra Hnew.
  assert (forall i t, tasks s !! i = Some t -> t_jobId t <> jobId) as Hold.
  { intros i t Ht E. destruct (Hids i t Ht) as (k & Hk & Ek).
    assert (k = uuid_calls s) by (apply Hfresh; [lia | lia | now rewrite <- Ek]).
    lia. }
  assert (writes_of jobId (history s) = []) as Hnone.
  { apply writes_of_other. intros w Hw E.
    destruct (Hhist w Hw) as (i & t & Ht & Et). apply (Hold i t Ht). congruence. }
  split.
  - intros i t Ht. rewrite Hts in Ht. rewrite Hh, writes_of_app.
    apply lookup_app_Some in Ht as [Ht | [_ Ht]].
    + rewrite (writes_of_other (t_jobId t) extra), app_nil_r; [now apply Hexp with i|].
      intros w Hw E. rewrite (Hextra w Hw) in E. apply (Hold i t Ht). congruence.
    + apply list_lookup_singleton_Some in Ht as [_ <-]. cbn [t_jobId t_phase].
      fold jobId. rewrite Hnone. exact Hnew.
  - intros i t Ht. rewrite Hts in Ht. rewrite Hu.
    apply lookup_app_Some in Ht as [Ht | [_ Ht]].
    + destruct (Hids i t Ht) as (k & Hk & Ek). exists k. split; [lia|exact Ek].
    + apply list_lookup_singleton_Some in Ht as [_ <-].
      exists (uuid_calls s). split; [lia|reflexivity].
  - intros i i' t t' Ht Ht' E. rewrite Hts in Ht, Ht'.
    apply lookup_app_Some in Ht as [Ht | [Hi Ht]];
      apply lookup_app_Some in Ht' as [Ht' | [Hi' Ht']].
    + now apply (Hinj i i' t t').
    + apply list_lookup_singleton_Some in Ht' as [_ <-].
      exfalso. now apply (Hold i t Ht).
    + apply list_lookup_singleton_Some in Ht as [_ <-].
      exfalso. apply (Hold i' t' Ht'). now rewrite <- E.
    + apply list_lookup_singleton_Some in Ht as [Hz _].
      apply list_lookup_singleton_Some in Ht' as [Hz' _]. lia.
  - intros w Hw. rewrite Hh in Hw. apply in_app_or in Hw as [Hw | Hw].
    + destruct (Hhist w Hw) as (i & t & Ht & E). exists i, t.
      split; [|exact E]. rewrite Hts. apply lookup_app_l_Some. exact Ht.
    + eexists (length (tasks s)), _. rewrite Hts. split.
      * rewrite lookup_app_r by lia. rewrite Nat.sub_diag. reflexivity.
      * cbn [t_jobId]. symmetry. now apply Hextra.
Qed.

Lemma Inv_start_job uuidv4 s req_body t_now t_start t_test :
  Inv uuidv4 s ->
  fresh_upto uuidv4 (S (S (uuid_calls s))) ->
  Inv uuidv4 (fst (step uuidv4 s (PostStartJob req_body t_now t_start t_test))).
Proof.
  intros HI Hfresh. cbn [step].
  destruct (validate req_body) as [[r|]|e] eqn:Hv.
  - unfold start_job. rewrite Hv. exact HI.
  - rewrite (start_job_accepted uuidv4 _ t_now t_start t_test s Hv). cbn [fst].
    unfold loop_test. cbn [negb andb].
    destruct (t_test - t_start <? timeout)%Z; cbn [fst snd].
    + eapply (Inv_spawned uuidv4 s _ _ [_]); try eassumption; try reflexivity.
      * intros w [<- | []]. reflexivity.
      * rewrite writes_of_same. reflexivity.
    + eapply (Inv_spawned uuidv4 s _ _ [_; _]); try eassumption.
      * cbn [history jobs_set]. rewrite <- app_assoc. reflexivity.
      * reflexivity.
      * reflexivity.
      * intros w [<- | [<- | []]]; reflexivity.
      * unfold writes_of. cbn [List.filter fst]. rewrite !String.eqb_refl.
        left. reflexivity.
  - unfold start_job. rewrite Hv. exact HI.
Qed.

Lemma step_uuid_calls uuidv4 s inp :
  (uuid_calls (fst (step uuidv4 s inp)) <= S (S (uuid_calls s)))%nat.
Proof.
  destruct inp as [req_body t_now t_start t_test | job_id | i ev]; cbn [step].
  - destruct (validate req_body) as [[r|]|e] eqn:Hv.
    + unfold start_job. rewrite Hv. simpl. lia.
    + rewrite (start_job_accepted uuidv4 _ t_now t_start t_test s Hv). cbn [fst].
      unfold loop_test. cbn [negb andb].
      destruct (t_test - t_start <? timeout)%Z; simpl; lia.
    + unfold start_job. rewrite Hv. simpl. lia.
  - simpl. lia.
  - destruct (tasks s !! i) as [t|]; [|simpl; lia].
    destruct (settle (t_jobId t) (t_phase t) ev s) as [[p' s']|] eqn:Hs; [|simpl; lia].
    apply settle_cases in Hs as [[-> _] | (j & -> & _)]; simpl; lia.
Qed.

Lemma Inv_step uuidv4 s inp :
  Inv uuidv4 s ->
  fresh_upto uuidv4 (S (S (uuid_calls s))) ->
  Inv uuidv4 (fst (step uuidv4 s inp)).
Proof.
  intros HI Hfresh. destruct inp as [req_body t_now t_start t_test | job_id | i ev].
  - now apply Inv_start_job.
  - exact HI.
  - now apply Inv_settle.
Qed.

Lemma Inv_run uuidv4 inputs :
  forall s,
    Inv uuidv4 s ->
    fresh_upto uuidv4 (uuid_calls s + 2 * length inputs) ->
    Inv uuidv4 (fst (run uuidv4 s inputs)).
Proof.
  induction inputs as [|inp rest IH]; intros s HI Hfresh; [exact HI|].
  rewrite run_cons. cbn [fst]. cbn [length] in Hfresh. apply IH.
  - apply Inv_step; [exact HI|]. eapply fresh_upto_le; [|exact Hfresh]. lia.
  - eapply fresh_upto_le; [|exact Hfresh].
    pose proof (step_uuid_calls uuidv4 s inp). lia.
Qed.

Lemma expected_lifecycle p l : expected p l -> lifecycle l = true.
Proof. destruct p; simpl; intros H; try (subst l; reflexivity);
         destruct H as [-> | [-> | ->]]; reflexivity. Qed.

Lemma expected_terminal_last p l pre st post :
  expected p l -> l = (pre ++ st :: post)%list -> terminal st = true -> post = [].
Proof.
  intros H E Ht.
  assert (l = ["awaiting_payment"] \/ l = ["awaiting_payment"; "running"]
          \/ l = ["awaiting_payment"; "failed"]
          \/ l = ["awaiting_payment"; "running"; "completed"]
          \/ l = ["awaiting_payment"; "running"; "failed"]) as Hl.
  { destruct p; simpl in H; intuition. }
  clear H. rewrite E in Hl. clear E.
  destruct pre as [|a [|b [|c [|d pre]]]];
    destruct Hl as [Hl | [Hl | [Hl | [Hl | Hl]]]];
    simplify_eq/=; try discriminate; try reflexivity.
Qed.

Lemma writes_of_cons_same jobId (w : string * job) (h : list (string * job)) :
  fst w = jobId -> writes_of jobId (w :: h) = status (snd w) :: writes_of jobId h.
Proof.
  intros <-. unfold writes_of. simpl. now rewrite String.eqb_refl.
Qed.

(** C4. Given that [uuidv4] never repeats an identifier, in every run of
    the server the statuses written to the registry for a job start
    with [awaiting_payment] and follow the arrows awaiting_payment ->
    running, awaiting_payment -> failed, running -> completed and
    running -> failed; and after a write of [completed] or [failed] no
    further [jobs.set] touches that job. *)
Theorem job_writes_follow_state_machine uuidv4 inputs :
  distinct (uuidv4 <$> seq 0 (1 + 2 * length inputs)) = true ->
  let s := fst (run uuidv4 (boot uuidv4) inputs) in
  forall jobId,
    lifecycle (writes_of jobId (history s)) = true
    /\ forall h1 w h2,
         history s = (h1 ++ w :: h2)%list ->
         fst w = jobId ->
         terminal (status (snd w)) = true ->
         forall w', In w' h2 -> fst w' <> jobId.
Proof.
  intros Hd s jobId.
  assert (Inv uuidv4 s) as HI.
  { apply Inv_run; [apply Inv_boot|]. now apply distinct_fresh_upto. }
  assert (writes_of jobId (history s) = []
          \/ exists p, expected p (writes_of jobId (history s))) as Hcase.
  { destruct (writes_of jobId (history s)) as [|st l] eqn:E; [now left|right].
    assert (exists w, In w (history s) /\ fst w = jobId) as (w & Hw & Hid).
    { clear HI. revert E. generalize (history s) as h.
      induction h as [|w h IH]; [discriminate|].
      destruct (String.eqb (fst w) jobId) eqn:Ew.
      - intros _. exists w. split; [now left|now apply String.eqb_eq].
      - unfold writes_of. simpl. rewrite Ew. intros E.
        destruct (IH E) as (w' & Hw' & Hid'). exists w'. split; [now right|exact Hid']. }
    destruct (inv_hist _ _ HI w Hw) as (i & t & Ht & Et).
    exists (t_phase t). rewrite <- E, <- Hid, <- Et.
    now apply (inv_expected _ _ HI i t). }
  split.
  - destruct Hcase as [-> | [p Hp]]; [reflexivity|now apply expected_lifecycle with p].
  - intros h1 w h2 Hh Hid Hterm.
    assert (writes_of jobId (history s)
            = (writes_of jobId h1 ++ status (snd w) :: writes_of jobId h2)%list) as E.
    { rewrite Hh, writes_of_app. now rewrite writes_of_cons_same. }
    apply writes_of_nil_inv.
    destruct Hcase as [Hnil | [p Hp]].
    + rewrite Hnil in E. now destruct (writes_of jobId h1).
    + now apply (expected_terminal_last p _ _ _ _ Hp E).
Qed.

Lemma job_writes_follow_state_machine_witness :
  writes_of (sample_uuid 1)
    (history (fst (run sample_uuid (boot sample_uuid) interleaved_jobs)))
    = ["awaiting_payment"; "running"; "completed"]
  /\ writes_of (sample_uuid 3)
       (history (fst (run sample_uuid (boot sample_uuid) interleaved_jobs)))
     = ["awaiting_payment"; "failed"]
  /\ lifecycle (writes_of (sample_uuid 1)
                 (history (fst (run sample_uuid (boot sample_uuid) interleaved_jobs))))
     = true.
Proof.
  split; [vm_compute; reflexivity|]. split; [vm_compute; reflexivity|].
  exact (proj1 (job_writes_follow_state_machine sample_uuid interleaved_jobs
                  eq_refl (sample_uuid 1))).
Defined.

Lemma registry_matches_jobs_set k j s :
  registry_matches s -> registry_matches (jobs_set k j s).
Proof.
  intros H jobId. unfold last_write. cbn [jobs_set jobs history].
  rewrite List.filter_app, List.map_app. cbn [List.filter fst].
  destruct (String.eqb k jobId) eqn:E.
  - apply String.eqb_eq in E as ->. rewrite lookup_insert_eq.
    cbn [List.map snd]. now rewrite last_snoc.
  - apply String.eqb_neq in E. rewrite lookup_insert_ne by exact E.
    cbn [List.map]. rewrite app_nil_r. apply H.
Qed.

Lemma registry_matches_step uuidv4 s inp :
  registry_matches s -> registry_matches (fst (step uuidv4 s inp)).
Proof.
  intros H. destruct inp as [req_body t_now t_start t_test | job_id | i ev];
    cbn [step].
  - destruct (validate req_body) as [[r|]|e] eqn:Hv.
    + unfold start_job. rewrite Hv. exact H.
    + rewrite (start_job_accepted uuidv4 _ t_now t_start t_test s Hv). cbn [fst].
      unfold loop_test. cbn [negb andb].
      destruct (t_test - t_start <? timeout)%Z; cbn [fst snd].
      * exact (registry_matches_jobs_set _ _ _ H).
      * exact (registry_matches_jobs_set _ _ _ (registry_matches_jobs_set _ _ _ H)).
    + unfold start_job. rewrite Hv. exact H.
  - exact H.
  - destruct (tasks s !! i) as [t|]; [|exact H].
    destruct (settle (t_jobId t) (t_phase t) ev s) as [[p' s']|] eqn:Hs; [|exact H].
    apply settle_cases in Hs as [[-> _] | (j & -> & _)]; cbn [fst].
    + exact H.
    + exact (registry_matches_jobs_set _ _ _ H).
Qed.

(** The record the registry holds for a job is the last one written. *)
Lemma registry_holds_last_write uuidv4 inputs :
  registry_matches (fst (run uuidv4 (boot uuidv4) inputs)).
Proof.
  assert (forall s, registry_matches s -> registry_matches (fst (run uuidv4 s inputs)))
    as H.
  { induction inputs as [|inp rest IH]; intros s Hs; [exact Hs|].
    rewrite run_cons. cbn [fst]. apply IH. now apply registry_matches_step. }
  apply H. intros jobId. apply lookup_empty.
Qed.

(** * Further properties of the handlers *)

(** ** Which requests [/start_job] accepts *)

Lemma has_task_key_get_prop entry :
  is_nullish entry = false ->
  (do k <- get_prop entry "key"; Normal (strict_eq_str k "task"))
  = Normal (has_task_key entry).
Proof. destruct entry; try discriminate; reflexivity. Qed.

Lemma has_task_key_not_nullish entry :
  has_task_key entry = true -> is_nullish entry = false.
Proof. destruct entry; try discriminate; reflexivity. Qed.

Lemma find_task_passed_over pre rest :
  passed_over pre = true -> find_task (pre ++ rest) = find_task rest.
Proof.
  unfold find_task. induction pre as [|x pre IH]; intros H; [reflexivity|].
  simpl in H. apply andb_prop in H as [Hx Hpre]. apply andb_prop in Hx as [Hn Hk].
  apply negb_true_iff in Hn, Hk.
  cbn [app Array_find]. rewrite (has_task_key_get_prop x Hn), Hk.
  cbn [bind]. now apply IH.
Qed.

Lemma find_task_hit e post :
  has_task_key e = true -> find_task (e :: post) = Normal e.
Proof.
  intros H. unfold find_task. cbn [Array_find].
  rewrite (has_task_key_get_prop e (has_task_key_not_nullish e H)), H. reflexivity.
Qed.

Lemma find_task_nullish n post :
  is_nullish n = true -> exists e, find_task (n :: post) = Throw e.
Proof.
  intros H. unfold find_task. destruct n; try discriminate; cbn; eauto.
Qed.

(** The three ways the search can end. *)
Lemma find_task_cases entries :
  (exists pre e post,
      entries = (pre ++ e :: post)%list /\ passed_over pre = true
      /\ has_task_key e = true /\ find_task entries = Normal e)
  \/ (passed_over entries = true /\ find_task entries = Normal VUndefined)
  \/ (exists pre n post err,
         entries = (pre ++ n :: post)%list /\ passed_over pre = true
         /\ is_nullish n = true /\ find_task entries = Throw err).
Proof.
  induction entries as [|x entries IH].
  - right. left. split; reflexivity.
  - destruct (is_nullish x) eqn:Hn.
    { right. right. destruct (find_task_nullish x entries Hn) as [err Herr].
      exists [], x, entries, err. repeat split; assumption. }
    destruct (has_task_key x) eqn:Hk.
    { left. exists [], x, entries. repeat split; try assumption.
      now apply find_task_hit. }
    assert (passed_over [x] = true) as Hx.
    { unfold passed_over. simpl. now rewrite Hn, Hk. }
    assert (find_task (x :: entries) = find_task entries) as Hfind.
    { exact (find_task_passed_over [x] entries Hx). }
    destruct IH as [(pre & e & post & -> & Hpre & He & Hf)
                   | [[Hall Hf] | (pre & n & post & err & -> & Hpre & Hnn & Hf)]].
    + left. exists (x :: pre), e, post. repeat split; try assumption.
      * unfold passed_over in *. simpl. now rewrite Hn, Hk.
      * now rewrite Hfind.
    + right. left. split.
      * unfold passed_over in *. simpl. now rewrite Hn, Hk.
      * now rewrite Hfind.
    + right. right. exists (x :: pre), n, post, err. repeat split; try assumption.
      * unfold passed_over in *. simpl. now rewrite Hn, Hk.
      * now rewrite Hfind.
Qed.

Lemma validate_array props entries :
  assoc "input_data" props = VArr entries ->
  validate (VObj props) =
  (do found <- find_task entries;
   if negb (strict_eq_str (get_prop_opt found "value") "increment") then
     Normal (Some (res_status_json 400 (VObj [("error", VStr "Unsupported task")])))
   else Normal None).
Proof. intros H. unfold validate, find_task. cbn [get_prop bind]. now rewrite H. Qed.

(** X1. [/start_job] lets a request through exactly when [input_data]
    is an array in which the first entry keyed 'task' has the value
    'increment' and no [null] entry comes before it: an 'increment'
    entry behind another entry keyed 'task' does not count. *)
Theorem validate_accepts_iff (req_body : jsval) :
  validate req_body = Normal None <->
  exists entries pre e post,
    get_prop_opt req_body "input_data" = VArr entries
    /\ entries = (pre ++ e :: post)%list
    /\ passed_over pre = true
    /\ has_task_key e = true
    /\ strict_eq_str (get_prop_opt e "value") "increment" = true.
Proof.
  split.
  - intros Hv. destruct req_body; try discriminate Hv.
    cbn [get_prop_opt]. destruct (assoc "input_data" props) as [| | | | |entries|] eqn:Ha;
      try (unfold validate in Hv; cbn [get_prop bind] in Hv; rewrite Ha in Hv;
           discriminate Hv).
    rewrite (validate_array props entries Ha) in Hv.
    destruct (find_task_cases entries)
      as [(pre & e & post & -> & Hpre & He & Hf)
         | [[Hall Hf] | (pre & n & post & err & -> & Hpre & Hnn & Hf)]];
      rewrite Hf in Hv; cbn [bind] in Hv; try discriminate Hv.
    exists (pre ++ e :: post)%list, pre, e, post. repeat split; try assumption.
    destruct (strict_eq_str (get_prop_opt e "value") "increment");
      [reflexivity|discriminate Hv].
  - intros (entries & pre & e & post & Ha & -> & Hpre & He & Hval).
    destruct req_body; try discriminate Ha. cbn [get_prop_opt] in Ha.
    rewrite (validate_array props _ Ha), (find_task_passed_over pre _ Hpre),
      (find_task_hit e post He). cbn [bind]. now rewrite Hval.
Qed.

Lemma validate_accepts_iff_witness :
  validate increment_request = Normal None
  /\ validate (VObj [("input_data",
                      VArr [ VObj [("key", VStr "task"); ("value", VStr "decrement")];
                             VObj [("key", VStr "task"); ("value", VStr "increment")] ])])
     <> Normal None.
Proof.
  split.
  - apply (proj2 (validate_accepts_iff increment_request)).
    exists [VObj [("key", VStr "task"); ("value", VStr "increment")]], [],
      (VObj [("key", VStr "task"); ("value", VStr "increment")]), [].
    repeat split; reflexivity.
  - discriminate.
Defined.

(** X2. [/start_job] throws, sending no response at all, exactly when
    the body itself is [null] or [undefined], or [input_data] is an
    array with a [null] entry that no entry keyed 'task' precedes. *)
Theorem validate_throws_iff (req_body : jsval) :
  (exists err, validate req_body = Throw err) <->
  is_nullish req_body = true
  \/ exists entries pre n post,
       get_prop_opt req_body "input_data" = VArr entries
       /\ entries = (pre ++ n :: post)%list
       /\ passed_over pre = true
       /\ is_nullish n = true.
Proof.
  split.
  - intros [err Hv]. destruct req_body; try (now left); try discriminate Hv.
    right. cbn [get_prop_opt].
    destruct (assoc "input_data" props) as [| | | | |entries|] eqn:Ha;
      try (unfold validate in Hv; cbn [get_prop bind] in Hv; rewrite Ha in Hv;
           discriminate Hv).
    rewrite (validate_array props entries Ha) in Hv.
    destruct (find_task_cases entries)
      as [(pre & e & post & -> & Hpre & He & Hf)
         | [[Hall Hf] | (pre & n & post & err' & -> & Hpre & Hnn & Hf)]];
      rewrite Hf in Hv; cbn [bind] in Hv.
    + destruct (negb _); discriminate Hv.
    + discriminate Hv.
    + exists (pre ++ n :: post)%list, pre, n, post. repeat split; assumption.
  - intros [Hn | (entries & pre & n & post & Ha & -> & Hpre & Hn)].
    + destruct req_body; try discriminate Hn; eexists; reflexivity.
    + destruct req_body; try discriminate Ha. cbn [get_prop_opt] in Ha.
      destruct (find_task_nullish n post Hn) as [err Herr]. exists err.
      rewrite (validate_array props _ Ha), (find_task_passed_over pre _ Hpre), Herr.
      reflexivity.
Qed.

Lemma validate_throws_iff_witness :
  exists err,
    validate (VObj [("input_data",
                     VArr [ VObj [("key", VStr "other")]; VNull;
                            VObj [("key", VStr "task"); ("value", VStr "increment")] ])])
    = Throw err.
Proof.
  apply (proj2 (validate_throws_iff _)). right.
  exists [ VObj [("key", VStr "other")]; VNull;
           VObj [("key", VStr "task"); ("value", VStr "increment")] ],
    [VObj [("key", VStr "other")]], VNull,
    [VObj [("key", VStr "task"); ("value", VStr "increment")]].
  repeat split; reflexivity.
Defined.

(** ** Identifiers and lifecycles in a run *)

Lemma step_accepted uuidv4 s inp :
  accepted (snd (step uuidv4 s inp)) = true ->
  exists req_body t_now t_start t_test,
    inp = PostStartJob req_body t_now t_start t_test
    /\ validate req_body = Normal None.
Proof.
  destruct inp as [req_body t_now t_start t_test | job_id | i ev]; cbn [step].
  - destruct (start_job uuidv4 req_body t_now t_start t_test s) as [rep s'] eqn:E.
    cbn [snd accepted]. destruct rep as [r|e]; [|discriminate].
    intros Hc. apply Z.eqb_eq in Hc.
    exists req_body, t_now, t_start, t_test. split; [reflexivity|].
    exact (start_job_200 _ _ _ _ _ _ _ _ E Hc).
  - discriminate.
  - destruct (tasks s !! i) as [t|]; [|discriminate].
    destruct (settle _ _ _ _) as [[p s']|]; discriminate.
Qed.

(** What a step that is not an accepted request leaves alone. *)
Lemma step_not_accepted uuidv4 s inp :
  accepted (snd (step uuidv4 s inp)) = false ->
  uuid_calls (fst (step uuidv4 s inp)) = uuid_calls s
  /\ length (tasks (fst (step uuidv4 s inp))) = length (tasks s).
Proof.
  destruct inp as [req_body t_now t_start t_test | job_id | i ev]; cbn [step].
  - destruct (validate req_body) as [[r|]|e] eqn:Hv.
    + unfold start_job. rewrite Hv. split; reflexivity.
    + rewrite (start_job_accepted uuidv4 _ t_now t_start t_test s Hv).
      cbn [fst snd accepted code]. discriminate.
    + unfold start_job. rewrite Hv. split; reflexivity.
  - split; reflexivity.
  - destruct (tasks s !! i) as [t|]; [|split; reflexivity].
    destruct (settle (t_jobId t) (t_phase t) ev s) as [[p' s']|] eqn:Hs;
      [|split; reflexivity].
    intros _. cbn [fst set_phase uuid_calls tasks]. rewrite length_alter.
    apply settle_cases in Hs as [[-> _] | (j & -> & _)]; split; reflexivity.
Qed.

Lemma step_accepted_counts uuidv4 s inp :
  accepted (snd (step uuidv4 s inp)) = true ->
  uuid_calls (fst (step uuidv4 s inp)) = S (S (uuid_calls s))
  /\ length (tasks (fst (step uuidv4 s inp))) = S (length (tasks s)).
Proof.
  intros H. destruct (step_accepted _ _ _ H) as (b & tn & ts & tt & -> & Hv).
  cbn [step]. rewrite (start_job_accepted uuidv4 _ tn ts tt s Hv). cbn [fst].
  unfold loop_test. cbn [negb andb].
  destruct (tt - ts <? timeout)%Z;
    cbn [fst snd uuid_calls tasks jobs_set]; rewrite length_app; simpl; split; lia.
Qed.

Lemma run_counts uuidv4 inputs :
  forall s,
    let s' := fst (run uuidv4 s inputs) in
    let n := count_accepted (snd (run uuidv4 s inputs)) in
    uuid_calls s' = (uuid_calls s + 2 * n)%nat
    /\ length (tasks s') = (length (tasks s) + n)%nat.
Proof.
  induction inputs as [|inp rest IH]; intros s; cbv zeta.
  - unfold count_accepted. simpl. split; lia.
  - rewrite run_cons. cbn [fst snd]. unfold count_accepted. cbn [List.filter].
    destruct (IH (fst (step uuidv4 s inp))) as [Hu Ht]. cbv zeta in Hu, Ht.
    unfold count_accepted in Hu, Ht.
    destruct (accepted (snd (step uuidv4 s inp))) eqn:Ha.
    + destruct (step_accepted_counts _ _ _ Ha) as [Hu1 Ht1].
      cbn [length]. split; lia.
    + destruct (step_not_accepted _ _ _ Ha) as [Hu1 Ht1]. split; lia.
Qed.

(** X3. In every run of the server each accepted [/start_job] makes
    exactly two [uuidv4()] calls and starts exactly one lifecycle;
    requests answered 400 or thrown out, status queries and settled
    promises make none and start none. With [n] requests accepted, the
    process has made [1 + 2 n] calls and runs [n] lifecycles. *)
Theorem accepted_requests_account uuidv4 inputs :
  let s := fst (run uuidv4 (boot uuidv4) inputs) in
  let n := count_accepted (snd (run uuidv4 (boot uuidv4) inputs)) in
  uuid_calls s = (1 + 2 * n)%nat /\ length (tasks s) = n.
Proof.
  destruct (run_counts uuidv4 inputs (boot uuidv4)) as [Hu Ht]. split.
  - exact Hu.
  - exact Ht.
Qed.

Lemma step_ids uuidv4 s inp r :
  snd (step uuidv4 s inp) = OutStartJob (Sent r) ->
  code r = 200%Z ->
  get_prop_opt (body r) "job_id" = VStr (uuidv4 (uuid_calls s))
  /\ get_prop_opt (body r) "payment_id" = VStr (uuidv4 (S (uuid_calls s)))
  /\ uuid_calls (fst (step uuidv4 s inp)) = S (S (uuid_calls s)).
Proof.
  intros Hr Hc.
  assert (accepted (snd (step uuidv4 s inp)) = true) as Ha.
  { rewrite Hr. cbn. now apply Z.eqb_eq. }
  destruct (step_accepted_counts _ _ _ Ha) as [Hu _].
  destruct (step_accepted _ _ _ Ha) as (b & tn & ts & tt & -> & Hv).
  cbn [step] in Hr. rewrite (start_job_accepted uuidv4 _ tn ts tt s Hv) in Hr.
  cbn [snd] in Hr. injection Hr as <-. repeat split; [reflexivity..|exact Hu].
Qed.

Lemma step_uuid_calls_mono uuidv4 s inp :
  (uuid_calls s <= uuid_calls (fst (step uuidv4 s inp)))%nat.
Proof.
  destruct (accepted (snd (step uuidv4 s inp))) eqn:Ha.
  - destruct (step_accepted_counts _ _ _ Ha) as [-> _]. lia.
  - destruct (step_not_accepted _ _ _ Ha) as [-> _]. lia.
Qed.

Lemma run_uuid_calls_mono uuidv4 inputs :
  forall s, (uuid_calls s <= uuid_calls (fst (run uuidv4 s inputs)))%nat.
Proof.
  induction inputs as [|inp rest IH]; intros s; [simpl; lia|].
  rewrite run_cons. cbn [fst].
  pose proof (step_uuid_calls_mono uuidv4 s inp).
  pose proof (IH (fst (step uuidv4 s inp))). lia.
Qed.

Lemma run_uuid_calls_bound uuidv4 inputs :
  forall s, (uuid_calls (fst (run uuidv4 s inputs)) <= uuid_calls s + 2 * length inputs)%nat.
Proof.
  induction inputs as [|inp rest IH]; intros s; [simpl; lia|].
  rewrite run_cons. cbn [fst length].
  pose proof (step_uuid_calls uuidv4 s inp).
  pose proof (IH (fst (step uuidv4 s inp))). lia.
Qed.

(** The identifiers of the accepted request found at a position. *)
Lemma run_ids_at uuidv4 inputs :
  forall s i r,
    nth_error (snd (run uuidv4 s inputs)) i = Some (OutStartJob (Sent r)) ->
    code r = 200%Z ->
    exists k,
      (uuid_calls s <= k)%nat
      /\ (S (S k) <= uuid_calls (fst (run uuidv4 s inputs)))%nat
      /\ get_prop_opt (body r) "job_id" = VStr (uuidv4 k)
      /\ get_prop_opt (body r) "payment_id" = VStr (uuidv4 (S k)).
Proof.
  induction inputs as [|inp rest IH]; intros s i r Hi Hc.
  - destruct i; discriminate Hi.
  - rewrite run_cons in Hi |- *. cbn [fst snd] in *.
    destruct i as [|i]; cbn [nth_error] in Hi.
    + injection Hi as Hi. destruct (step_ids _ _ _ _ Hi Hc) as (Hj & Hp & Hu).
      exists (uuid_calls s). split; [lia|]. split; [|now split].
      pose proof (run_uuid_calls_mono uuidv4 rest (fst (step uuidv4 s inp))). lia.
    + destruct (IH _ _ _ Hi Hc) as (k & Hk & Hle & Hj & Hp).
      exists k. split; [|now repeat split].
      pose proof (step_uuid_calls_mono uuidv4 s inp). lia.
Qed.

Lemma run_ids_pair uuidv4 inputs :
  forall s i1 i2 r1 r2,
    nth_error (snd (run uuidv4 s inputs)) i1 = Some (OutStartJob (Sent r1)) ->
    nth_error (snd (run uuidv4 s inputs)) i2 = Some (OutStartJob (Sent r2)) ->
    code r1 = 200%Z ->
    code r2 = 200%Z ->
    (i1 < i2)%nat ->
    exists k1 k2,
      (uuid_calls s <= k1)%nat /\ (S (S k1) <= k2)%nat
      /\ (S (S k2) <= uuid_calls (fst (run uuidv4 s inputs)))%nat
      /\ get_prop_opt (body r1) "job_id" = VStr (uuidv4 k1)
      /\ get_prop_opt (body r1) "payment_id" = VStr (uuidv4 (S k1))
      /\ get_prop_opt (body r2) "job_id" = VStr (uuidv4 k2)
      /\ get_prop_opt (body r2) "payment_id" = VStr (uuidv4 (S k2)).
Proof.
  induction inputs as [|inp rest IH]; intros s i1 i2 r1 r2 H1 H2 Hc1 Hc2 Hlt.
  - destruct i1; discriminate H1.
  - rewrite run_cons in H1, H2 |- *. cbn [fst snd] in *.
    destruct i2 as [|i2]; [lia|]. cbn [nth_error] in H2.
    destruct i1 as [|i1]; cbn [nth_error] in H1.
    + injection H1 as H1. destruct (step_ids _ _ _ _ H1 Hc1) as (Hj & Hp & Hu).
      destruct (run_ids_at uuidv4 rest _ i2 r2 H2 Hc2) as (k2 & Hk2 & Hle & Hj2 & Hp2).
      exists (uuid_calls s), k2. repeat split; try assumption; lia.
    + destruct (IH _ i1 i2 r1 r2 H1 H2 Hc1 Hc2 ltac:(lia))
        as (k1 & k2 & Hk1 & Hk12 & Hk2 & Hrest).
      exists k1, k2. split; [|now repeat split].
      pose proof (step_uuid_calls_mono uuidv4 s inp). lia.
Qed.

(** X4. Given that [uuidv4] does not repeat itself, two accepted
    requests of one run get different [job_id]s and different
    [payment_id]s, no [job_id] is a [payment_id], and no [job_id] is
    the [inputHash]. *)
Theorem accepted_requests_get_distinct_ids uuidv4 inputs i1 i2 r1 r2 :
  distinct (uuidv4 <$> seq 0 (1 + 2 * length inputs)) = true ->
  let outs := snd (run uuidv4 (boot uuidv4) inputs) in
  nth_error outs i1 = Some (OutStartJob (Sent r1)) ->
  nth_error outs i2 = Some (OutStartJob (Sent r2)) ->
  code r1 = 200%Z ->
  code r2 = 200%Z ->
  (i1 < i2)%nat ->
  get_prop_opt (body r1) "job_id" <> get_prop_opt (body r2) "job_id"
  /\ get_prop_opt (body r1) "payment_id" <> get_prop_opt (body r2) "payment_id"
  /\ get_prop_opt (body r1) "job_id" <> get_prop_opt (body r2) "payment_id"
  /\ get_prop_opt (body r1) "payment_id" <> get_prop_opt (body r2) "job_id"
  /\ get_prop_opt (body r1) "job_id" <> get_prop_opt (body r1) "payment_id"
  /\ get_prop_opt (body r1) "job_id" <> VStr (uuidv4 0%nat)
  /\ get_prop_opt (body r2) "job_id" <> VStr (uuidv4 0%nat).
Proof.
  intros Hd outs H1 H2 Hc1 Hc2 Hlt.
  apply distinct_fresh_upto in Hd.
  destruct (run_ids_pair uuidv4 inputs (boot uuidv4) i1 i2 r1 r2 H1 H2 Hc1 Hc2 Hlt)
    as (k1 & k2 & Hk1 & Hk12 & Hk2 & -> & -> & -> & ->).
  pose proof (run_uuid_calls_bound uuidv4 inputs (boot uuidv4)) as Hb.
  cbn [boot uuid_calls] in Hk1, Hb.
  repeat split; intros [= E]; apply Hd in E; lia.
Qed.

Lemma accepted_requests_get_distinct_ids_witness :
  exists r1 r2,
    nth_error (snd (run sample_uuid (boot sample_uuid) two_jobs)) 0
      = Some (OutStartJob (Sent r1))
    /\ nth_error (snd (run sample_uuid (boot sample_uuid) two_jobs)) 2
      = Some (OutStartJob (Sent r2))
    /\ get_prop_opt (body r1) "job_id" <> get_prop_opt (body r2) "job_id"
    /\ get_prop_opt (body r1) "payment_id" <> get_prop_opt (body r2) "payment_id".
Proof.
  eexists _, _. split; [vm_compute; reflexivity|].
  split; [vm_compute; reflexivity|].
  destruct (accepted_requests_get_distinct_ids sample_uuid two_jobs 0 2 _ _
              eq_refl eq_refl eq_refl eq_refl eq_refl ltac:(lia)) as (Ha & Hb & _).
  exact (conj Ha Hb).
Defined.

(** ** What [/status] answers over a run *)

Lemma issued_only_boot uuidv4 : issued_only uuidv4 (boot uuidv4).
Proof.
  split.
  - intros i t H. simpl in H. now rewrite lookup_nil in H.
  - intros w [].
Qed.

Lemma issued_only_step uuidv4 s inp :
  issued_only uuidv4 s -> issued_only uuidv4 (fst (step uuidv4 s inp)).
Proof.
  intros [Ht Hh].
  destruct inp as [req_body t_now t_start t_test | job_id | i ev]; cbn [step].
  - destruct (validate req_body) as [[r|]|e] eqn:Hv;
      try (unfold start_job; rewrite Hv; now split).
    rewrite (start_job_accepted uuidv4 _ t_now t_start t_test s Hv). cbn [fst].
    assert (forall extra,
               (forall w, In w extra -> fst w = uuidv4 (uuid_calls s)) ->
               forall w, In w (history s ++ extra) ->
                         exists k, (k < S (S (uuid_calls s)))%nat /\ fst w = uuidv4 k)
      as Hnew.
    { intros extra Hextra w Hw. apply in_app_or in Hw as [Hw | Hw].
      - destruct (Hh w Hw) as (k & Hk & E). exists k. split; [lia|exact E].
      - exists (uuid_calls s). split; [lia|now apply Hextra]. }
    unfold loop_test. cbn [negb andb].
    destruct (t_test - t_start <? timeout)%Z; unfold issued_only;
      cbn [fst snd uuid_calls tasks history jobs_set]; split.
    + intros i t Hi. apply lookup_app_Some in Hi as [Hi | [_ Hi]].
      * destruct (Ht i t Hi) as (k & Hk & E). exists k. split; [lia|exact E].
      * apply list_lookup_singleton_Some in Hi as [_ <-].
        exists (uuid_calls s). split; [lia|reflexivity].
    + apply Hnew. intros w [<- | []]. reflexivity.
    + intros i t Hi. apply lookup_app_Some in Hi as [Hi | [_ Hi]].
      * destruct (Ht i t Hi) as (k & Hk & E). exists k. split; [lia|exact E].
      * apply list_lookup_singleton_Some in Hi as [_ <-].
        exists (uuid_calls s). split; [lia|reflexivity].
    + rewrite <- app_assoc. apply Hnew. intros w [<- | [<- | []]]; reflexivity.
  - now split.
  - destruct (tasks s !! i) as [t|] eqn:Hi; [|now split].
    destruct (settle (t_jobId t) (t_phase t) ev s) as [[p' s']|] eqn:Hs; [|now split].
    cbn [fst].
    assert (forall i0 t0,
               alter (fun t => {| t_jobId := t_jobId t; t_paymentId := t_paymentId t;
                                  t_phase := p' |}) i (tasks s) !! i0 = Some t0 ->
               exists k, (k < uuid_calls s)%nat /\ t_jobId t0 = uuidv4 k) as Halt.
    { intros i0 t0 H0. apply alter_phase_inv in H0 as (t1 & H1 & -> & _).
      now apply Ht with i0. }
    apply settle_cases in Hs as [[-> _] | (j & -> & _)]; unfold issued_only;
      cbn [set_phase tasks history uuid_calls jobs_set]; split; try exact Halt.
    + exact Hh.
    + intros w Hw. apply in_app_or in Hw as [Hw | [<- | []]]; [now apply Hh|].
      now apply Ht with i.
Qed.

Lemma issued_only_run uuidv4 inputs :
  forall s, issued_only uuidv4 s -> issued_only uuidv4 (fst (run uuidv4 s inputs)).
Proof.
  induction inputs as [|inp rest IH]; intros s H; [exact H|].
  rewrite run_cons. cbn [fst]. apply IH. now apply issued_only_step.
Qed.

Lemma last_write_none jobId (h : list (string * job)) :
  (forall w, In w h -> fst w <> jobId) -> last_write jobId h = None.
Proof.
  intros H. unfold last_write.
  assert (List.filter (fun w => String.eqb (fst w) jobId) h = []) as ->; [|reflexivity].
  induction h as [|w h IH]; [reflexivity|]. simpl.
  destruct (String.eqb (fst w) jobId) eqn:E.
  - apply String.eqb_eq in E. exfalso. apply (H w); [now left|exact E].
  - apply IH. intros w' Hw'. apply H. now right.
Qed.

(** X5. After any run, [/status] answers 404 'Job not found' for every
    [job_id] that [uuidv4] has not issued in this process: an unknown
    string, the empty string, a missing parameter or one that is not a
    string. *)
Theorem status_of_unissued_id_is_404 uuidv4 inputs (job_id : jsval) :
  let s := fst (run uuidv4 (boot uuidv4) inputs) in
  (forall k, (k < uuid_calls s)%nat -> job_id <> VStr (uuidv4 k)) ->
  get_status job_id s = not_found.
Proof.
  intros s Hnot. subst s. unfold get_status.
  destruct job_id as [| | | |jobId| |]; try reflexivity.
  destruct (String.eqb jobId ""); [reflexivity|].
  rewrite (registry_holds_last_write uuidv4 inputs jobId).
  rewrite last_write_none; [reflexivity|].
  intros w Hw E.
  destruct (issued_only_run uuidv4 inputs _ (issued_only_boot uuidv4)) as [_ Hh].
  destruct (Hh w Hw) as (k & Hk & Ek). apply (Hnot k Hk). congruence.
Qed.

Lemma status_of_unissued_id_is_404_witness :
  get_status (VStr "no-such-job")
    (fst (run sample_uuid (boot sample_uuid) interleaved_jobs)) = not_found
  /\ get_status VUndefined
       (fst (run sample_uuid (boot sample_uuid) interleaved_jobs)) = not_found.
Proof.
  split.
  - apply (status_of_unissued_id_is_404 sample_uuid interleaved_jobs).
    intros k Hk. vm_compute in Hk.
    do 5 (destruct k as [|k]; [discriminate|]). lia.
  - apply (status_of_unissued_id_is_404 sample_uuid interleaved_jobs).
    intros k _. discriminate.
Defined.

Lemma step_keeps_jobs uuidv4 s inp jobId :
  is_Some (jobs s !! jobId) -> is_Some (jobs (fst (step uuidv4 s inp)) !! jobId).
Proof.
  intros H.
  assert (forall k j s0, is_Some (jobs s0 !! jobId) ->
                         is_Some (jobs (jobs_set k j s0) !! jobId)) as Hset.
  { intros k j s0 H0. cbn [jobs_set jobs]. rewrite lookup_insert.
    destruct (decide (k = jobId)); [eauto|exact H0]. }
  destruct inp as [req_body t_now t_start t_test | job_id | i ev]; cbn [step].
  - destruct (validate req_body) as [[r|]|e] eqn:Hv;
      try (unfold start_job; rewrite Hv; exact H).
    rewrite (start_job_accepted uuidv4 _ t_now t_start t_test s Hv). cbn [fst].
    unfold loop_test. cbn [negb andb].
    destruct (t_test - t_start <? timeout)%Z; cbn [fst snd jobs]; auto.
  - exact H.
  - destruct (tasks s !! i) as [t|]; [|exact H].
    destruct (settle (t_jobId t) (t_phase t) ev s) as [[p' s']|] eqn:Hs; [|exact H].
    apply settle_cases in Hs as [[-> _] | (j & -> & _)]; cbn [fst set_phase jobs];
      auto.
Qed.

(** X6. The registry never loses a job: once an identifier is in it,
    [/status] answers 200 for that identifier after any further
    requests and settled promises, with the identifier in the body. *)
Theorem registered_job_stays_visible uuidv4 s inputs jobId :
  is_Some (jobs s !! jobId) ->
  jobId <> "" ->
  let r := get_status (VStr jobId) (fst (run uuidv4 s inputs)) in
  code r = 200%Z /\ get_prop_opt (body r) "job_id" = VStr jobId
  /\ has_field "status" (body r) = true.
Proof.
  intros H Hne.
  assert (is_Some (jobs (fst (run uuidv4 s inputs)) !! jobId)) as [j Hj].
  { revert s H. induction inputs as [|inp rest IH]; intros s H; [exact H|].
    rewrite run_cons. cbn [fst]. apply IH. now apply step_keeps_jobs. }
  cbv zeta. unfold get_status. apply String.eqb_neq in Hne. rewrite Hne, Hj.
  repeat split.
Qed.

Lemma registered_job_stays_visible_witness :
  code (get_status (VStr (sample_uuid 1))
          (fst (run sample_uuid awaiting_server
                  [ Settle 0 TimerFired;
                    Settle 0 (QueryRejected (ErrError "Network Error"));
                    PostStartJob increment_request 1700000009000 1700000009001
                      1700000009002 ]))) = 200%Z.
Proof.
  refine (proj1 (registered_job_stays_visible sample_uuid awaiting_server _
                   (sample_uuid 1) _ _)).
  - vm_compute. eauto.
  - discriminate.
Defined.

(** X7. After any run, what [/status] serves for a job is the record of
    the last [jobs.set] made for it: status and result of that write,
    the result left out when the write had none. *)
Theorem status_serves_last_write uuidv4 inputs jobId j :
  let s := fst (run uuidv4 (boot uuidv4) inputs) in
  last_write jobId (history s) = Some j ->
  jobId <> "" ->
  get_status (VStr jobId) s =
  res_json (VObj [ ("job_id", VStr jobId); ("status", VStr (status j));
                   ("result", result j) ]).
Proof.
  intros s Hl Hne. subst s. unfold get_status.
  apply String.eqb_neq in Hne. rewrite Hne.
  rewrite (registry_holds_last_write uuidv4 inputs jobId). now rewrite Hl.
Qed.

Lemma status_serves_last_write_witness :
  get_status (VStr (sample_uuid 1))
    (fst (run sample_uuid (boot sample_uuid) interleaved_jobs)) =
  {| code := 200;
     body := VObj [ ("job_id", VStr (sample_uuid 1)); ("status", VStr "completed");
                    ("result", VStr "00aa") ] |}.
Proof.
  apply (status_serves_last_write sample_uuid interleaved_jobs (sample_uuid 1)
           {| status := "completed"; result := VStr "00aa" |}).
  - vm_compute. reflexivity.
  - discriminate.
Defined.

Lemma run_app uuidv4 inputs later :
  forall s,
    fst (run uuidv4 s (inputs ++ later))
    = fst (run uuidv4 (fst (run uuidv4 s inputs)) later).
Proof.
  induction inputs as [|inp rest IH]; intros s; [reflexivity|].
  cbn [app]. rewrite !run_cons. cbn [fst]. apply IH.
Qed.

Lemma step_history_extends uuidv4 s inp :
  exists extra, history (fst (step uuidv4 s inp)) = (history s ++ extra)%list.
Proof.
  destruct inp as [req_body t_now t_start t_test | job_id | i ev]; cbn [step].
  - destruct (validate req_body) as [[r|]|e] eqn:Hv;
      try (unfold start_job; rewrite Hv; exists []; now rewrite app_nil_r).
    rewrite (start_job_accepted uuidv4 _ t_now t_start t_test s Hv). cbn [fst].
    unfold loop_test. cbn [negb andb].
    destruct (t_test - t_start <? timeout)%Z; cbn [fst snd history jobs_set].
    + eexists. reflexivity.
    + eexists. rewrite <- app_assoc. reflexivity.
  - exists []. now rewrite app_nil_r.
  - destruct (tasks s !! i) as [t|]; [|exists []; now rewrite app_nil_r].
    destruct (settle (t_jobId t) (t_phase t) ev s) as [[p' s']|] eqn:Hs;
      [|exists []; now rewrite app_nil_r].
    apply settle_cases in Hs as [[-> _] | (j & -> & _)];
      cbn [fst set_phase history jobs_set].
    + exists []. now rewrite app_nil_r.
    + eexists. reflexivity.
Qed.

Lemma run_history_extends uuidv4 inputs :
  forall s, exists extra,
    history (fst (run uuidv4 s inputs)) = (history s ++ extra)%list.
Proof.
  induction inputs as [|inp rest IH]; intros s.
  - exists []. simpl. now rewrite app_nil_r.
  - rewrite run_cons. cbn [fst].
    destruct (IH (fst (step uuidv4 s inp))) as [e2 ->].
    destruct (step_history_extends uuidv4 s inp) as [e1 ->].
    exists (e1 ++ e2)%list. now rewrite app_assoc.
Qed.

Lemma writes_of_last_write jobId (h : list (string * job)) :
  writes_of jobId h
  = List.map status (List.map snd (List.filter (fun w => String.eqb (fst w) jobId) h)).
Proof. unfold writes_of. now rewrite List.map_map. Qed.

Lemma writes_of_some_In jobId (h : list (string * job)) st l :
  writes_of jobId h = st :: l -> exists w, In w h /\ fst w = jobId.
Proof.
  induction h as [|w h IH]; [discriminate|].
  destruct (String.eqb (fst w) jobId) eqn:Ew.
  - intros _. exists w. split; [now left|now apply String.eqb_eq].
  - unfold writes_of. simpl. rewrite Ew. intros E.
    destruct (IH E) as (w' & Hw' & Hid'). exists w'. split; [now right|exact Hid'].
Qed.

Lemma Inv_writes_expected uuidv4 s jobId st l :
  Inv uuidv4 s ->
  writes_of jobId (history s) = st :: l ->
  exists p, expected p (st :: l).
Proof.
  intros HI E. destruct (writes_of_some_In _ _ _ _ E) as (w & Hw & Hid).
  destruct (inv_hist _ _ HI w Hw) as (i & t & Ht & Et).
  exists (t_phase t). rewrite <- E, <- Hid, <- Et.
  now apply (inv_expected _ _ HI i t).
Qed.

(** X8. Given that [uuidv4] does not repeat itself, a job the registry
    holds as [completed] or [failed] is final: whatever requests and
    settled promises follow, the registry holds the very same record,
    status and result, for it. *)
Theorem terminal_job_is_final uuidv4 inputs later jobId j :
  distinct (uuidv4 <$> seq 0 (1 + 2 * length (inputs ++ later))) = true ->
  jobs (fst (run uuidv4 (boot uuidv4) inputs)) !! jobId = Some j ->
  terminal (status j) = true ->
  jobs (fst (run uuidv4 (boot uuidv4) (inputs ++ later))) !! jobId = Some j.
Proof.
  intros Hd Hj Hterm.
  assert (Inv uuidv4 (fst (run uuidv4 (boot uuidv4) (inputs ++ later)))) as HI.
  { apply Inv_run; [apply Inv_boot|]. now apply distinct_fresh_upto. }
  rewrite (registry_holds_last_write uuidv4 inputs jobId) in Hj.
  rewrite (registry_holds_last_write uuidv4 (inputs ++ later) jobId).
  rewrite run_app in HI |- *.
  destruct (run_history_extends uuidv4 later (fst (run uuidv4 (boot uuidv4) inputs)))
    as [extra Hh].
  set (s1 := fst (run uuidv4 (boot uuidv4) inputs)) in *.
  set (s2 := fst (run uuidv4 s1 later)) in *.
  unfold last_write in Hj. apply last_Some in Hj as [l' Hl'].
  assert (writes_of jobId (history s2)
          = (List.map status l' ++ status j :: writes_of jobId extra)%list) as E.
  { rewrite Hh, writes_of_app, (writes_of_last_write jobId (history s1)), Hl'.
    rewrite List.map_app, <- app_assoc. reflexivity. }
  assert (writes_of jobId extra = []) as Hnone.
  { destruct (writes_of jobId (history s2)) as [|st l] eqn:Ew.
    - now destruct (List.map status l').
    - destruct (Inv_writes_expected uuidv4 s2 jobId st l HI Ew) as [p Hp].
      now apply (expected_terminal_last p _ _ _ _ Hp E). }
  unfold last_write. rewrite Hh, List.filter_app, List.map_app, Hl'.
  rewrite writes_of_last_write in Hnone.
  apply List.map_eq_nil in Hnone. rewrite Hnone, app_nil_r. apply last_snoc.
Qed.

Lemma terminal_job_is_final_witness :
  jobs (fst (run sample_uuid (boot sample_uuid)
               (interleaved_jobs
                ++ [ Settle 0 (IncrementRejected ErrOther);
                     Settle 1 (QueryResolved (payment_answer "Success") 1700000130000);
                     PostStartJob increment_request 1700000200000 1700000200001
                       1700000200002 ])))
    !! sample_uuid 3
  = Some {| status := "failed"; result := VStr "Payment timeout" |}.
Proof.
  apply (terminal_job_is_final sample_uuid interleaved_jobs); reflexivity.
Defined.

(** ** The polling loop and the increment *)

Lemma poll_round_waiting jobId start s a rest :
  keeps_waiting start a = true ->
  settle_all jobId (Sleeping start) (poll_rounds (a :: rest)) s
  = settle_all jobId (Sleeping start) (poll_rounds rest) s.
Proof.
  intros H. unfold keeps_waiting in H. apply andb_prop in H as [Hc Ht].
  cbn [poll_rounds flat_map app settle_all settle]. unfold loop_test.
  rewrite Hc, Ht. reflexivity.
Qed.

Lemma poll_rounds_app a b : poll_rounds (a ++ b) = (poll_rounds a ++ poll_rounds b)%list.
Proof. unfold poll_rounds. apply flat_map_app. Qed.

Lemma settle_all_app jobId p evs1 evs2 s :
  settle_all jobId p (evs1 ++ evs2) s
  = match settle_all jobId p evs1 s with
    | Some (p', s') => settle_all jobId p' evs2 s'
    | None => None
    end.
Proof.
  revert p s. induction evs1 as [|ev evs1 IH]; intros p s; [reflexivity|].
  cbn [app settle_all]. destruct (settle jobId p ev s) as [[p' s']|]; [|reflexivity].
  apply IH.
Qed.

Lemma waiting_rounds_change_nothing jobId start s (answers : list (jsval * Z)) :
  forallb (keeps_waiting start) answers = true ->
  settle_all jobId (Sleeping start) (poll_rounds answers) s = Some (Sleeping start, s).
Proof.
  induction answers as [|a rest IH]; intros H; [reflexivity|].
  cbn [forallb] in H. apply andb_prop in H as [Ha Hrest].
  rewrite (poll_round_waiting jobId start s a rest Ha). now apply IH.
Qed.

(** X9. No job times out early and polling writes nothing: as long as
    every answer so far is without 'Success' and every loop test has
    read a clock below start + 120000 ms, the lifecycle is back asleep
    before the next query and registry and history are as they were. *)
Theorem polling_before_deadline_is_silent jobId start s (answers : list (jsval * Z)) :
  forallb (keeps_waiting start) answers = true ->
  settle_all jobId (Sleeping start) (poll_rounds answers) s = Some (Sleeping start, s).
Proof. apply waiting_rounds_change_nothing. Qed.

Lemma polling_before_deadline_is_silent_witness :
  settle_all (sample_uuid 1) (Sleeping 1700000000124)
    (poll_rounds [ (payment_answer "Pending", 1700000005200%Z);
                   (VStr "<html>Bad Gateway</html>", 1700000010300%Z);
                   (VObj [("data", VNull)], 1700000120100%Z) ])
    awaiting_server
  = Some (Sleeping 1700000000124, awaiting_server).
Proof.
  apply polling_before_deadline_is_silent. reflexivity.
Defined.

(** X10. A job whose payment is confirmed after any number of waiting
    rounds is set to [running] by the confirming answer, whatever the
    clock shows at that moment (an answer 'Success' that arrives after
    the 120 s deadline still confirms). The increment then decides: a
    resolved call with a result object completes the job with the
    result's [txId]; a rejected call, or a resolved one whose result is
    [null] or [undefined], fails it with the error's message. *)
Theorem confirmed_job_runs_then_settles jobId start s (answers : list (jsval * Z))
    (check_data : jsval) (now : Z) :
  forallb (keeps_waiting start) answers = true ->
  confirms check_data = true ->
  let confirmed := poll_rounds (answers ++ [(check_data, now)]) in
  let running := jobs_set jobId {| status := status_string Running;
                                   result := VUndefined |} s in
  settle_all jobId (Sleeping start) confirmed s = Some (Incrementing, running)
  /\ (forall props,
         settle_all jobId (Sleeping start)
           (confirmed ++ [IncrementResolved (VObj props)]) s
         = Some (Finished,
                 jobs_set jobId {| status := status_string Completed;
                                   result := assoc "txId" props |} running))
  /\ (forall err,
         settle_all jobId (Sleeping start) (confirmed ++ [IncrementRejected err]) s
         = Some (Finished,
                 jobs_set jobId {| status := status_string Failed;
                                   result := catch_message err |} running))
  /\ (forall result,
         is_nullish result = true ->
         exists message,
           settle_all jobId (Sleeping start)
             (confirmed ++ [IncrementResolved result]) s
           = Some (Finished,
                   jobs_set jobId {| status := status_string Failed;
                                     result := VStr message |} running)).
Proof.
  intros Hwait Hc confirmed running.
  assert (settle_all jobId (Sleeping start) confirmed s = Some (Incrementing, running))
    as Hrun.
  { unfold confirmed. rewrite poll_rounds_app, settle_all_app.
    rewrite (waiting_rounds_change_nothing jobId start s answers Hwait).
    cbn [poll_rounds flat_map app settle_all settle fst snd]. unfold loop_test.
    rewrite Hc. reflexivity. }
  split; [exact Hrun|]. split; [|split].
  - intros props. rewrite settle_all_app, Hrun. reflexivity.
  - intros err. rewrite settle_all_app, Hrun. reflexivity.
  - intros result0 Hn. rewrite settle_all_app, Hrun.
    destruct result0; try discriminate Hn; eexists; reflexivity.
Qed.

Lemma confirmed_job_runs_then_settles_witness :
  settle_all (sample_uuid 1) (Sleeping 1700000000124)
    (poll_rounds ([ (payment_answer "Pending", 1700000005200%Z) ]
                  ++ [ (payment_answer "Success", 1700000999999%Z) ])
     ++ [IncrementResolved (VObj [("txId", VStr "00aa")])])
    awaiting_server
  = Some (Finished,
          jobs_set (sample_uuid 1) {| status := "completed"; result := VStr "00aa" |}
            (jobs_set (sample_uuid 1) {| status := "running"; result := VUndefined |}
               awaiting_server)).
Proof.
  exact (proj1 (proj2 (confirmed_job_runs_then_settles (sample_uuid 1) 1700000000124
                         awaiting_server [ (payment_answer "Pending", 1700000005200%Z) ]
                         (payment_answer "Success") 1700000999999 eq_refl eq_refl))
           [("txId", VStr "00aa")]).
Defined.

Lemma poll_leaves_loop jobId start s (answer : nat -> jsval) (clock : nat -> Z) :
  forall k i0,
    (start + timeout <= clock (i0 + k)%nat)%Z ->
    exists n p s',
      (1 <= n <= S k)%nat
      /\ settle_all jobId (Sleeping start)
           (poll_rounds (List.map (round answer clock) (seq i0 n))) s = Some (p, s')
      /\ left_polling p = true.
Proof.
  induction k as [|k IH]; intros i0 Hclock.
  - exists 1%nat. rewrite Nat.add_0_r in Hclock.
    cbn [seq List.map poll_rounds flat_map round fst snd app settle_all settle].
    unfold loop_test.
    assert ((clock i0 - start <? timeout)%Z = false) as -> by (apply Z.ltb_ge; lia).
    rewrite andb_false_r.
    destruct (negb (confirms (answer i0))); eexists _, _;
      (split; [lia|]); split; reflexivity.
  - destruct (keeps_waiting start (round answer clock i0)) eqn:E.
    + destruct (IH (S i0)) as (n & p & s' & Hn & Hrun & Hp).
      { replace (S i0 + k)%nat with (i0 + S k)%nat by lia. exact Hclock. }
      exists (S n), p, s'. split; [lia|]. split; [|exact Hp].
      cbn [seq List.map]. now rewrite (poll_round_waiting jobId start s _ _ E).
    + exists 1%nat. unfold keeps_waiting, round in E. cbn [fst snd] in E.
      cbn [seq List.map poll_rounds flat_map round fst snd app settle_all settle].
      unfold loop_test. rewrite E.
      destruct (negb (confirms (answer i0))); eexists _, _;
        (split; [lia|]); split; reflexivity.
Qed.

(** X11. The polling loop is bounded: whatever the payment service
    answers, a lifecycle whose timers never fire early leaves the loop,
    confirmed or timed out, after at least one and at most 24 answered
    queries. *)
Theorem polling_ends_within_24_queries jobId start s (answer : nat -> jsval)
    (clock : nat -> Z) :
  (forall i, (start + 5000 * (Z.of_nat i + 1) <= clock i)%Z) ->
  exists n p s',
    (1 <= n <= 24)%nat
    /\ settle_all jobId (Sleeping start)
         (poll_rounds (List.map (round answer clock) (seq 0 n))) s = Some (p, s')
    /\ left_polling p = true.
Proof.
  intros Hclock. apply (poll_leaves_loop jobId start s answer clock 23 0).
  specialize (Hclock 23%nat). unfold timeout. simpl. lia.
Qed.

Lemma polling_ends_within_24_queries_witness :
  exists n p s',
    (1 <= n <= 24)%nat
    /\ settle_all (sample_uuid 1) (Sleeping 1700000000124)
         (poll_rounds
            (List.map (round (fun i => payment_answer (if (i <? 7)%nat then "Pending"
                                                       else "Success"))
                         (fun i => 1700000000124 + 5000 * (Z.of_nat i + 1))%Z)
               (seq 0 n)))
         awaiting_server = Some (p, s')
    /\ left_polling p = true.
Proof.
  apply polling_ends_within_24_queries. intros i. lia.
Defined.

(** ** More on the ASCII art *)


Lemma art_line_tail digits r :
  art_line digits r = art_tail (length digits) r 0 digits.
Proof. reflexivity. Qed.



Lemma digits_recognized (u : Decimal.uint) :
  forallb recognized (split_chars (NilEmpty.string_of_uint u)) = true.
Proof. induction u; simpl; try reflexivity; exact IHu. Qed.

Lemma toString_digits (z : Z) :
  (0 <= z)%Z ->
  forallb recognized (split_chars (Number_toString z)) = true
  /\ (1 <= length (split_chars (Number_toString z)))%nat.
Proof.
  intros Hz. unfold Number_toString. destruct z as [|p|p]; [split; [reflexivity|simpl; lia]| |lia].
  cbn [Z.to_int NilZero.string_of_int]. unfold NilZero.string_of_uint.
  pose proof (DecimalPos.Unsigned.to_uint_nonnil p) as Hnn.
  destruct (Pos.to_uint p) eqn:E; try contradiction;
    (split; [apply (digits_recognized (_ _)) | simpl; lia]).
Qed.



Lemma art_piece_sep len len' r index index' digit :
  (index <? len - 1)%nat = (index' <? len' - 1)%nat ->
  art_piece len r index digit = art_piece len' r index' digit.
Proof. unfold art_piece. now intros ->. Qed.

Lemma art_tail_app len r index a b :
  art_tail len r index (a ++ b)
  = art_tail len r index a +:+ art_tail len r (index + length a) b.
Proof.
  revert index. induction a as [|x a IH]; intros index.
  - cbn [app length]. rewrite Nat.add_0_r. reflexivity.
  - cbn [app length]. rewrite !art_tail_cons, IH, string_app_assoc.
    now replace (S index + length a)%nat with (index + S (length a))%nat by lia.
Qed.

Lemma art_tail_ext len len' r index index' rest :
  (forall j, (j < length rest)%nat ->
             (index + j <? len - 1)%nat = (index' + j <? len' - 1)%nat) ->
  art_tail len r index rest = art_tail len' r index' rest.
Proof.
  intros H. unfold art_tail. f_equal. apply imap_ext. intros j x Hj.
  apply art_piece_sep, H. now apply lookup_lt_Some in Hj.
Qed.

Lemma skip_unrecognized (pre post : list string) (c : string) :
  recognized c = false ->
  post <> [] ->
  numberToAscii_digits (pre ++ c :: post) = numberToAscii_digits (pre ++ post).
Proof.
  intros Hc Hpost. rewrite !numberToAscii_digits_spec. unfold art_spec.
  f_equal. apply List.map_ext. intros r. rewrite !art_line_tail.
  rewrite !art_tail_app, art_tail_cons. rewrite !length_app. cbn [length].
  assert (art_piece (length pre + S (length post)) r (0 + length pre) c = "") as ->.
  { unfold art_piece. unfold recognized in Hc.
    now destruct (ASCII_NUMBERS c). }
  assert (1 <= length post)%nat as Hlen by (destruct post; [contradiction|simpl; lia]).
  f_equal.
  - apply art_tail_ext. intros j Hj.
    destruct (Nat.ltb_spec (0 + j) (length pre + S (length post) - 1));
      destruct (Nat.ltb_spec (0 + j) (length pre + length post - 1));
      try reflexivity; lia.
  - cbn [String.append]. apply art_tail_ext. intros j Hj.
    destruct (Nat.ltb_spec (S (0 + length pre) + j) (length pre + S (length post) - 1));
      destruct (Nat.ltb_spec (0 + length pre + j) (length pre + length post - 1));
      try reflexivity; lia.
Qed.

(** X13. A character without a table entry leaves no trace in the art
    as long as it is not the last one: the art of [pre ++ c :: post],
    [post] not empty, is the art of [pre ++ post]. So a sign, a decimal
    point or an exponent marker is simply skipped. *)
Theorem unrecognized_character_is_skipped (pre post : list string) (c : string) :
  recognized c = false ->
  post <> [] ->
  numberToAscii_digits (pre ++ c :: post) = numberToAscii_digits (pre ++ post).
Proof. apply skip_unrecognized. Qed.

Lemma unrecognized_character_is_skipped_witness :
  numberToAscii_digits (split_chars "1e+21") = numberToAscii_digits (split_chars "1+21")
  /\ numberToAscii_digits (split_chars "1.5") = numberToAscii_digits (split_chars "15").
Proof.
  split.
  - apply (unrecognized_character_is_skipped ["1"] ["+"; "2"; "1"] "e");
      [reflexivity|discriminate].
  - apply (unrecognized_character_is_skipped ["1"] ["5"] ".");
      [reflexivity|discriminate].
Defined.

(** X14. The sign is lost: a negative integer (above -2^53, where
    [Number] and [toString] are exact) is drawn exactly like its
    absolute value. *)
Theorem numberToAscii_ignores_sign (z : Z) :
  (- 2 ^ 53 < z < 2 ^ 53)%Z ->
  numberToAscii_int (- z) = numberToAscii_int z.
Proof.
  intros _.
  assert (forall p, numberToAscii_int (Z.neg p) = numberToAscii_int (Z.pos p)) as H.
  { intros p. unfold numberToAscii_int, numberToAscii, Number_toString.
    cbn [Z.to_int NilZero.string_of_int split_chars].
    pose proof (toString_digits (Z.pos p) ltac:(lia)) as [_ Hlen].
    unfold Number_toString in Hlen. cbn [Z.to_int NilZero.string_of_int] in Hlen.
    apply (skip_unrecognized [] _ "-"); [reflexivity|].
    intros E. rewrite E in Hlen. simpl in Hlen. lia. }
  destruct z as [|p|p]; [reflexivity| |]; cbn [Z.opp]; [apply H|symmetry; apply H].
Qed.

Lemma numberToAscii_ignores_sign_witness :
  Number_toString (-407) = "-407"
  /\ numberToAscii_int (-407) = numberToAscii_int 407.
Proof.
  split; [reflexivity|].
  apply (numberToAscii_ignores_sign 407). split; reflexivity.
Defined.

Lemma pieces_empty (f : nat -> string -> string) (l : list string) :
  (forall j d, In d l -> f j d = "") ->
  foldr String.append "" (imap f l) = "".
Proof.
  revert f. induction l as [|d l IH]; intros f H; [reflexivity|].
  cbn [imap foldr]. rewrite (H 0%nat d (or_introl eq_refl)).
  cbn [String.append]. apply IH. intros j d' Hd'. apply H. now right.
Qed.

(** X15. When no character of [num.toString()] has a table entry (as in
    "NaN" and "Infinity"), the art is six empty lines: five newline
    characters and nothing else. *)
Theorem numberToAscii_without_digits (number : Type) (toString : number -> string)
    (num : number) :
  forallb (fun c => negb (recognized c)) (split_chars (toString num)) = true ->
  numberToAscii number toString num = LF +:+ LF +:+ LF +:+ LF +:+ LF.
Proof.
  intros H. unfold numberToAscii. rewrite numberToAscii_digits_spec.
  rewrite forallb_forall in H.
  assert (forall r, art_line (split_chars (toString num)) r = "") as Hline.
  { intros r. unfold art_line. apply pieces_empty. intros j d Hd.
    specialize (H d Hd). unfold recognized in H. unfold art_piece.
    now destruct (ASCII_NUMBERS d). }
  unfold art_spec. cbn [seq List.map join]. rewrite !Hline. reflexivity.
Qed.

Lemma numberToAscii_without_digits_witness :
  numberToAscii bool (fun b : bool => if b then "NaN" else "-Infinity") false
  = LF +:+ LF +:+ LF +:+ LF +:+ LF.
Proof.
  apply (numberToAscii_without_digits bool
           (fun b : bool => if b then "NaN" else "-Infinity") false).
  reflexivity.
Defined.

(** ** The older routes *)

Lemma find_task_result entries found :
  find_task entries = Normal found ->
  found = VUndefined \/ has_task_key found = true.
Proof.
  intros H.
  destruct (find_task_cases entries)
    as [(pre & e & post & -> & Hpre & He & Hf)
       | [[Hall Hf] | (pre & n & post & err & -> & Hpre & Hnn & Hf)]];
    rewrite Hf in H; try discriminate H; injection H as <-; auto.
Qed.

(** The guards of the two routes let the same bodies through, turn the
    same ones away and throw on the same ones. *)
Lemma guards_agree (req_body : jsval) :
  match validate req_body, start_job_old_guards req_body with
  | Normal None, Normal None => True
  | Normal (Some r), Normal (Some r') => code r = 400%Z /\ code r' = 400%Z
  | Throw _, Throw _ => True
  | _, _ => False
  end.
Proof.
  destruct req_body; try exact I; try (split; reflexivity).
  unfold validate, start_job_old_guards. cbn [get_prop destructure bind].
  destruct (assoc "input_data" props) as [| |b|z|str|entries|ps];
    cbn [Array_isArray negb]; rewrite ?orb_true_r; try (split; reflexivity).
  cbn [truthy negb orb]. fold (find_task entries).
  destruct (find_task entries) as [found|e] eqn:Hf; cbn [bind]; [|exact I].
  destruct (find_task_result _ _ Hf) as [-> | Hk].
  - cbn. split; reflexivity.
  - destruct found; try discriminate Hk. cbn [truthy negb get_prop get_prop_opt bind].
    destruct (negb (strict_eq_str (assoc "value" props0) "increment"));
      cbn; [split; reflexivity|exact I].
Qed.

(** X16. [/start_job_old] accepts exactly the bodies [/start_job]
    accepts, and [api.increment] is called for these and no others;
    it answers 400 where [/start_job] answers 400; and where
    [/start_job] throws without answering, [/start_job_old], whose
    guards sit inside its [try], answers 500 without calling
    [api.increment]. *)
Theorem start_job_old_guards_like_start_job (req_body : jsval) (increment : settled) :
  let old := start_job_old req_body increment in
  (validate req_body = Normal None <-> snd old = true)
  /\ ((exists r, validate req_body = Normal (Some r))
      <-> (code (fst old) = 400%Z /\ snd old = false))
  /\ ((exists e, validate req_body = Throw e)
      <-> (code (fst old) = 500%Z /\ snd old = false)).
Proof.
  cbv zeta. unfold start_job_old. pose proof (guards_agree req_body) as H.
  destruct (validate req_body) as [[r|]|e];
    destruct (start_job_old_guards req_body) as [[r'|]|e']; try contradiction.
  - destruct H as [_ Hr']. cbn [fst snd]. split; [split; discriminate|]. split.
    + split; [intros _; now split|intros _; eauto].
    + split; [intros [e He]; discriminate He|].
      intros [H5 _]. rewrite Hr' in H5. discriminate H5.
  - set (old := match increment with
                | Resolved result0 => _
                | Rejected e => _
                end).
    assert (snd old = true) as Hs.
    { subst old. destruct increment as [result0|err];
        [destruct (get_prop result0 "txId")|]; reflexivity. }
    rewrite Hs. split; [split; reflexivity|]. split.
    + split; [intros [r Hr]; discriminate Hr|intros [_ Hf]; discriminate Hf].
    + split; [intros [e He]; discriminate He|intros [_ Hf]; discriminate Hf].
  - cbn [fst snd]. split; [split; discriminate|]. split.
    + split; [intros [r Hr]; discriminate Hr|intros [H4 _]; discriminate H4].
    + split; [intros _; now split|intros _; eauto].
Qed.

Lemma start_job_old_guards_like_start_job_witness :
  snd (start_job_old increment_request (Rejected ErrOther)) = true
  /\ code (fst (start_job_old (VObj [("input_data", VArr [VNull])])
                  (Resolved (VObj [("txId", VStr "00aa")])))) = 500%Z.
Proof.
  split.
  - apply (proj1 (proj1 (start_job_old_guards_like_start_job increment_request
                           (Rejected ErrOther)))). reflexivity.
  - apply (proj1 (proj2 (proj2 (start_job_old_guards_like_start_job
                                  (VObj [("input_data", VArr [VNull])])
                                  (Resolved (VObj [("txId", VStr "00aa")])))))).
    eexists. reflexivity.
Defined.

(** X17. For a body it accepts, [/start_job_old] answers as [/inc]
    does for the same outcome of [api.increment]: 200 exactly when the
    call resolves with a result that is not [null] or [undefined], the
    [job_id] of the one being the [txId] of the other, and 500
    otherwise. Only [/start_job_old] passes the error's message on, as
    [details]; the 500 of [/inc] is always the same body. *)
Theorem start_job_old_answers_like_inc (req_body : jsval) (increment : settled) :
  validate req_body = Normal None ->
  let old := fst (start_job_old req_body increment) in
  let new := inc increment in
  code old = code new
  /\ (code new = 200%Z \/ code new = 500%Z)
  /\ (code new = 200%Z <->
      exists result, increment = Resolved result /\ is_nullish result = false)
  /\ (code new = 200%Z ->
      get_prop_opt (body old) "job_id" = get_prop_opt (body new) "txId")
  /\ (code new = 500%Z ->
      body new = VObj [("success", VBool false);
                       ("error", VStr "Failed to increment counter")]
      /\ has_field "details" (body old) = true).
Proof.
  intros Hv. cbv zeta. unfold start_job_old.
  pose proof (guards_agree req_body) as H. rewrite Hv in H.
  destruct (start_job_old_guards req_body) as [[r'|]|e']; try contradiction.
  unfold inc. destruct increment as [result0|err].
  - destruct result0; cbn [get_prop fst code body res_json res_status_json];
      (split; [reflexivity|]);
      (split; [auto|]);
      (split; [split; [intros E; try discriminate E; eexists; split; reflexivity
                      |intros (x & [= <-] & Hx); try discriminate Hx; reflexivity]|]);
      split; intros E; try discriminate E.
    all: try (split; reflexivity).
    all: cbn; try reflexivity.
    all: destruct (assoc "txId" props); reflexivity.
  - cbn [fst code body res_json res_status_json].
    split; [reflexivity|]. split; [auto|].
    split; [split; [discriminate|intros (x & [= ] & _)]|].
    split; [discriminate|]. intros _. split; reflexivity.
Qed.

Lemma start_job_old_answers_like_inc_witness :
  fst (start_job_old increment_request (Resolved (VObj [("txId", VStr "00aa")])))
  = {| code := 200; body := VObj [("job_id", VStr "00aa")] |}
  /\ code (inc (Resolved (VObj [("txId", VStr "00aa")]))) = 200%Z.
Proof.
  split; [reflexivity|].
  pose proof (start_job_old_answers_like_inc increment_request
                (Resolved (VObj [("txId", VStr "00aa")])) eq_refl) as (Hc & _).
  rewrite <- Hc. reflexivity.
Defined.

(** ** The SIGINT handler over any signals *)

Lemma handle_all_snoc p evs ev :
  Shutdown.handle_all p (evs ++ [ev]) = Shutdown.handle (Shutdown.handle_all p evs) ev.
Proof. unfold Shutdown.handle_all. now rewrite fold_left_app. Qed.

(** What holds of a serving process after any signals. *)
Lemma serving_invariant (evs : list Shutdown.signal) :
  let p := Shutdown.handle_all Shutdown.serving evs in
  (Shutdown.closes_pending p <= Shutdown.wallet_close_calls p)%nat
  /\ (Shutdown.wallet_close_calls p <= length (List.filter is_SIGINT evs))%nat
  /\ (Shutdown.exit_code p = None \/ Shutdown.exit_code p = Some 0%Z)
  /\ (Shutdown.exit_code p = Some 0%Z -> (1 <= Shutdown.wallet_close_calls p)%nat)
  /\ (Shutdown.interval_armed p = negb (1 <=? Shutdown.wallet_close_calls p)%nat).
Proof.
  induction evs as [|ev evs IH] using rev_ind; cbv zeta.
  - simpl. repeat split; auto; try lia; try discriminate.
  - rewrite handle_all_snoc, List.filter_app, length_app.
    cbv zeta in IH. destruct IH as (Hp & Hc & He & H0 & Ha).
    set (p := Shutdown.handle_all Shutdown.serving evs) in *.
    unfold Shutdown.handle.
    destruct (Shutdown.exit_code p) as [c|] eqn:Ec.
    + rewrite Ec. repeat split; auto; try lia.
    + destruct ev; cbn [List.filter is_SIGINT length Shutdown.interval_armed
                          Shutdown.wallet_close_calls Shutdown.closes_pending
                          Shutdown.exit_code].
      * repeat split; auto; try lia; try discriminate.
      * destruct (Shutdown.closes_pending p) as [|n] eqn:En.
        -- rewrite Ec. repeat split; auto; try lia; try discriminate.
        -- cbn [Shutdown.interval_armed Shutdown.wallet_close_calls
                  Shutdown.closes_pending Shutdown.exit_code].
           repeat split; auto; try lia.
Qed.

(** X18. Whatever signals and resolved closes reach a serving process,
    in whatever order: [wallet.close()] is called no more often than
    SIGINTs have arrived; the interval timer is cleared exactly from the
    first call on; and [process.exit(0)] is reached only after a SIGINT,
    with [wallet.close()] called and the timer cleared. *)
Theorem sigint_handler_invariant (evs : list Shutdown.signal) :
  let p := Shutdown.handle_all Shutdown.serving evs in
  (Shutdown.wallet_close_calls p <= length (List.filter is_SIGINT evs))%nat
  /\ (Shutdown.closes_pending p <= Shutdown.wallet_close_calls p)%nat
  /\ Shutdown.interval_armed p = negb (1 <=? Shutdown.wallet_close_calls p)%nat
  /\ (Shutdown.exit_code p = Some 0%Z ->
      existsb is_SIGINT evs = true
      /\ (1 <= Shutdown.wallet_close_calls p)%nat
      /\ Shutdown.interval_armed p = false).
Proof.
  cbv zeta. destruct (serving_invariant evs) as (Hp & Hc & He & H0 & Ha).
  cbv zeta in *. split; [exact Hc|]. split; [exact Hp|]. split; [exact Ha|].
  intros Hz. specialize (H0 Hz). split; [|split; [exact H0|]].
  - apply existsb_exists.
    destruct (List.filter is_SIGINT evs) as [|ev l] eqn:Ef; [simpl in Hc; lia|].
    assert (In ev (List.filter is_SIGINT evs)) as Hin by (rewrite Ef; now left).
    apply filter_In in Hin. now exists ev.
  - rewrite Ha.
    destruct (Nat.leb_spec 1 (Shutdown.wallet_close_calls
                                (Shutdown.handle_all Shutdown.serving evs)));
      [reflexivity|lia].
Qed.

Lemma sigint_handler_invariant_witness :
  Shutdown.exit_code
    (Shutdown.handle_all Shutdown.serving
       [Shutdown.WalletClosed; Shutdown.SIGINT; Shutdown.SIGINT; Shutdown.WalletClosed;
        Shutdown.SIGINT]) = Some 0%Z
  /\ Shutdown.wallet_close_calls
       (Shutdown.handle_all Shutdown.serving
          [Shutdown.WalletClosed; Shutdown.SIGINT; Shutdown.SIGINT;
           Shutdown.WalletClosed; Shutdown.SIGINT]) = 2%nat
  /\ existsb is_SIGINT
       [Shutdown.WalletClosed; Shutdown.SIGINT; Shutdown.SIGINT; Shutdown.WalletClosed;
        Shutdown.SIGINT] = true.
Proof.
  split; [reflexivity|]. split; [reflexivity|].
  apply (proj2 (proj2 (proj2 (sigint_handler_invariant
                                [Shutdown.WalletClosed; Shutdown.SIGINT; Shutdown.SIGINT;
                                 Shutdown.WalletClosed; Shutdown.SIGINT])))).
  reflexivity.
Defined.

(** ** The records of the registry *)

Lemma settle_writes_shaped jobId p ev s p' s' :
  settle jobId p ev s = Some (p', s') ->
  s' = s \/ exists j, s' = jobs_set jobId j s /\ well_shaped j = true.
Proof.
  destruct p, ev; simpl; try discriminate.
  - intros [= <- <-]. now left.
  - unfold loop_test.
    destruct (negb (confirms check_data) && (now - start <? timeout)%Z).
    + intros [= <- <-]. now left.
    + destruct (negb (confirms check_data)); intros [= <- <-]; right;
        eexists; split; reflexivity.
  - intros [= <- <-]. right. eexists. split; [reflexivity|]. now destruct err.
  - destruct (get_prop result0 "txId") as [txId|e]; intros [= <- <-]; right;
      eexists; (split; [reflexivity|]); [reflexivity|now destruct e].
  - intros [= <- <-]. right. eexists. split; [reflexivity|]. now destruct err.
Qed.

Lemma step_writes_shaped uuidv4 s inp :
  Forall (fun w => well_shaped (snd w) = true) (history s) ->
  Forall (fun w => well_shaped (snd w) = true) (history (fst (step uuidv4 s inp))).
Proof.
  intros H. destruct inp as [req_body t_now t_start t_test | job_id | i ev];
    cbn [step].
  - destruct (validate req_body) as [[r|]|e] eqn:Hv;
      try (unfold start_job; rewrite Hv; exact H).
    rewrite (start_job_accepted uuidv4 _ t_now t_start t_test s Hv). cbn [fst].
    unfold loop_test. cbn [negb andb].
    destruct (t_test - t_start <? timeout)%Z; cbn [fst snd history jobs_set];
      repeat (apply Forall_app; split); try exact H;
      repeat constructor.
  - exact H.
  - destruct (tasks s !! i) as [t|]; [|exact H].
    destruct (settle (t_jobId t) (t_phase t) ev s) as [[p' s']|] eqn:Hs; [|exact H].
    apply settle_writes_shaped in Hs as [-> | (j & -> & Hj)];
      cbn [fst set_phase history jobs_set]; [exact H|].
    apply Forall_app. split; [exact H|]. now repeat constructor.
Qed.

Lemma run_writes_shaped uuidv4 inputs :
  forall s,
    Forall (fun w => well_shaped (snd w) = true) (history s) ->
    Forall (fun w => well_shaped (snd w) = true) (history (fst (run uuidv4 s inputs))).
Proof.
  induction inputs as [|inp rest IH]; intros s Hs; [exact Hs|].
  rewrite run_cons. cbn [fst]. apply IH. now apply step_writes_shaped.
Qed.

(** X19. After any run, every record of the registry has one of the
    four statuses and the result that goes with it: [null] while
    [awaiting_payment], no result while [running], a message string
    when [failed]. *)
Theorem registry_records_are_well_shaped uuidv4 inputs jobId j :
  jobs (fst (run uuidv4 (boot uuidv4) inputs)) !! jobId = Some j ->
  well_shaped j = true.
Proof.
  intros Hj. rewrite (registry_holds_last_write uuidv4 inputs jobId) in Hj.
  pose proof (run_writes_shaped uuidv4 inputs (boot uuidv4) (List.Forall_nil _)) as Hall.
  unfold last_write in Hj. apply last_Some in Hj as [l' Hl'].
  rewrite Forall_forall in Hall.
  assert (In j (List.map snd
                  (List.filter (fun w => String.eqb (fst w) jobId)
                     (history (fst (run uuidv4 (boot uuidv4) inputs)))))) as Hin.
  { rewrite Hl'. apply in_or_app. right. now left. }
  apply in_map_iff in Hin as (w & <- & Hw). apply filter_In in Hw as [Hw _].
  apply Hall. now apply list_elem_of_In.
Qed.

Lemma registry_records_are_well_shaped_witness :
  well_shaped {| status := "failed"; result := VStr "Payment timeout" |} = true.
Proof.
  apply (registry_records_are_well_shaped sample_uuid interleaved_jobs (sample_uuid 3)).
  reflexivity.
Defined.
